(** * Lumiverse Helper: pack conversion and legacy settings migration

    A shallow embedding of [scripts/convertPacks.js] ([extractMetadata],
    [convertLumiaItem], [convertLoomItem], [processWorldBook],
    [convertPack], the default output path of [main]) and of the extension
    module ([migrateSettings] with the [extractMetadata] and
    [processWorldBook] of that module, [getItemFromLibrary], [escapeHtml],
    the handlers of the selection modal, [handleNewBook], the pack name of
    [fetchWorldBook], [getLumiaContent] and the two reminder macros),
    followed by the properties of the specification that concern them and
    by further properties of the same functions.

    Conventions of the embedding.
    - A JavaScript string is a list of code units; only code units below
      256 are represented ([ascii] read as Latin-1).  White space, line
      terminators, word characters and lower-casing are the ECMAScript ones
      restricted to that range.
    - A JavaScript number is an integer ([Z]); fractions, NaN and the
      infinities are not represented.
    - A JavaScript value is a JSON value or [undefined]; an object is the
      list of its own properties in enumeration order, without duplicate
      keys.
    - A thrown exception is the [Throw] case of [result]; [console.log]
      output is not modelled. *)

From Stdlib Require Import ZArith Ascii String List Bool Lia DecimalString.
From stdpp Require Import base option list gmap strings.

Local Open Scope Z_scope.
Set Warnings "-register-all".

(** ** Strings *)

Abbreviation jsstring := (list ascii).

Definition lit (x : string) : jsstring := list_ascii_of_string x.
Coercion lit : string >-> list.

Module Str.

Definition code (c : ascii) : nat := nat_of_ascii c.

Definition eqc (a b : ascii) : bool := bool_decide (a = b).

(** [\s] of a regular expression and the characters removed by
    [String.prototype.trim]: TAB, LF, VT, FF, CR, SPACE, NBSP. *)
Definition is_ws (c : ascii) : bool :=
  let n := code c in
  ((9 <=? n) && (n <=? 13) || (n =? 32) || (n =? 160))%nat.

(** Line terminators, which [.] does not match: LF and CR. *)
Definition is_lt (c : ascii) : bool :=
  let n := code c in ((n =? 10) || (n =? 13))%nat.

(** [\w]: ASCII letters, digits and underscore. *)
Definition is_word (c : ascii) : bool :=
  let n := code c in
  ((65 <=? n) && (n <=? 90) || (97 <=? n) && (n <=? 122)
   || (48 <=? n) && (n <=? 57) || (n =? 95))%nat.

(** [toLowerCase] on Latin-1: A-Z and the accented capitals
    U+00C0-U+00DE (except the multiplication sign U+00D7). *)
Definition lower_char (c : ascii) : ascii :=
  let n := code c in
  if ((65 <=? n) && (n <=? 90)
      || (192 <=? n) && (n <=? 222) && negb (n =? 215))%nat
  then ascii_of_nat (n + 32) else c.

Definition toLowerCase (s : jsstring) : jsstring := map lower_char s.

Fixpoint dropWhile (f : ascii -> bool) (s : jsstring) : jsstring :=
  match s with
  | [] => []
  | c :: s' => if f c then dropWhile f s' else s
  end.

Fixpoint span (f : ascii -> bool) (s : jsstring) : jsstring * jsstring :=
  match s with
  | [] => ([], [])
  | c :: s' =>
      if f c then let '(a, b) := span f s' in (c :: a, b) else ([], s)
  end.

Definition trimStart (s : jsstring) : jsstring := dropWhile is_ws s.
Definition trimEnd (s : jsstring) : jsstring :=
  rev (dropWhile is_ws (rev s)).
Definition trim (s : jsstring) : jsstring := trimEnd (trimStart s).

Definition eqb (a b : jsstring) : bool := bool_decide (a = b).

(** [strip_prefix p s] is the rest of [s] after its prefix [p]. *)
Fixpoint strip_prefix (p s : jsstring) : option jsstring :=
  match p, s with
  | [], _ => Some s
  | a :: p', b :: s' => if eqc a b then strip_prefix p' s' else None
  | _ :: _, [] => None
  end.

(** Leftmost search: try the matcher at every index from the left, the
    end of the string included; the result carries the text before the
    match. *)
Fixpoint search {R} (m : jsstring -> option R) (s : jsstring)
  : option (jsstring * R) :=
  match m s with
  | Some r => Some ([], r)
  | None =>
      match s with
      | [] => None
      | c :: s' =>
          match search m s' with
          | Some (p, r) => Some (c :: p, r)
          | None => None
          end
      end
  end.

(** [s.includes(p)]. *)
Definition includes (p s : jsstring) : bool :=
  match search (strip_prefix p) s with Some _ => true | None => false end.

(** [s.replace(p, '')] with a string pattern: the first occurrence of [p]
    is removed, or nothing when there is none. *)
Definition replaceFirst (p s : jsstring) : jsstring :=
  match search (strip_prefix p) s with
  | Some (before, after) => before ++ after
  | None => s
  end.

(** [.*?] followed by a continuation [k]: the shortest run of characters
    other than line terminators after which [k] accepts. *)
Fixpoint lazy_dots (k : jsstring -> bool) (s : jsstring) : option jsstring :=
  if k s then Some []
  else match s with
       | [] => None
       | c :: s' =>
           if is_lt c then None
           else match lazy_dots k s' with
                | Some g => Some (c :: g)
                | None => None
                end
       end.

(** [.+?] followed by [k]. *)
Definition lazy_dots1 (k : jsstring -> bool) (s : jsstring)
  : option jsstring :=
  match s with
  | [] => None
  | c :: s' =>
      if is_lt c then None
      else match lazy_dots k s' with
           | Some g => Some (c :: g)
           | None => None
           end
  end.

Definition starts_with (p s : jsstring) : bool :=
  match strip_prefix p s with Some _ => true | None => false end.

End Str.

(** ** Values and exceptions *)

Inductive error :=
| TypeError            (* raised by the runtime: property of null, call of a non-function *)
| UnknownInputFormat.  (* [throw new Error('Unknown input format')] *)

Inductive result (A : Type) :=
| Ok (a : A)
| Throw (e : error).
Arguments Ok {A} a.
Arguments Throw {A} e.

#[global] Instance result_bind : MBind result := fun A B f r =>
  match r with
  | Ok a => f a
  | Throw e => Throw e
  end.

#[global] Instance result_ret : MRet result := fun A a => Ok a.

Inductive value :=
| VUndef
| VNull
| VBool (b : bool)
| VNum (n : Z)
| VStr (s : jsstring)
| VArr (l : list value)
| VObj (fs : list (jsstring * value)).

Module Js.

(** ToBoolean. *)
Definition truthy (v : value) : bool :=
  match v with
  | VUndef | VNull => false
  | VBool b => b
  | VNum n => negb (n =? 0)
  | VStr s => match s with [] => false | _ => true end
  | VArr _ | VObj _ => true
  end.

(** [a || b]. *)
Definition or (a b : value) : value := if truthy a then a else b.

Fixpoint lookup (k : jsstring) (fs : list (jsstring * value)) : value :=
  match fs with
  | [] => VUndef
  | (k', v) :: fs' => if Str.eqb k k' then v else lookup k fs'
  end.

(** [v.k] for the property names read by the program.  None of them is
    an inherited property of a string, number, boolean or array, except
    [entries] on an array, which [convertPack] reads only next to
    [Array.isArray]. *)
Definition get (v : value) (k : jsstring) : result value :=
  match v with
  | VUndef | VNull => Throw TypeError
  | VObj fs => Ok (lookup k fs)
  | _ => Ok VUndef
  end.

(** [v?.k]. *)
Definition get_opt (v : value) (k : jsstring) : value :=
  match v with
  | VObj fs => lookup k fs
  | _ => VUndef
  end.

Definition isArray (v : value) : bool :=
  match v with VArr _ => true | _ => false end.

Definition is_number (v : value) : bool :=
  match v with VNum _ => true | _ => false end.

(** [Object.values(v)] for [v] neither null nor undefined. *)
Definition object_values (v : value) : list value :=
  match v with
  | VObj fs => map snd fs
  | VArr l => l
  | VStr s => map (fun c => VStr [c]) s
  | _ => []
  end.

(** [v === VStr s]. *)
Definition is_str (s : jsstring) (v : value) : bool :=
  match v with VStr s' => Str.eqb s' s | _ => false end.

Definition of_option (o : option jsstring) : value :=
  match o with Some s => VStr s | None => VNull end.

End Js.

(** ** Regular expressions shared by the script and the extension *)

Module Re.
Import Str.

(** [/\((.+?)\)/] tried at one index: group 1. *)
Definition name_at (s : jsstring) : option jsstring :=
  match strip_prefix "(" s with
  | Some r => lazy_dots1 (starts_with ")") r
  | None => None
  end.

(** [comment.match(/\((.+?)\)/)]: group 1 of the leftmost match. *)
Definition nameMatch (comment : jsstring) : option jsstring :=
  snd <$> search name_at comment.

(** [/{{<opening>\w+::([\s\S]*?)}}/] tried at one index: group 1.  The
    greedy [\w+] takes the whole run of word characters ([:] is not one),
    the lazy group stops at the first [}}]. *)
Definition var_at (opening s : jsstring) : option jsstring :=
  match strip_prefix opening s with
  | Some r =>
      match span is_word r with
      | (_ :: _, r1) =>
          match strip_prefix "::" r1 with
          | Some r2 => fst <$> search (strip_prefix "}}") r2
          | None => None
          end
      | ([], _) => None
      end
  | None => None
  end.

(** [content.match(/{{setvar::lumia_behavior_\w+::([\s\S]*?)}}/)]. *)
Definition behaviorMatch (content : jsstring) : option jsstring :=
  snd <$> search (var_at "{{setvar::lumia_behavior_") content.

(** [content.match(/{{setglobalvar::lumia_personality_\w+::([\s\S]*?)}}/)]. *)
Definition personalityMatch (content : jsstring) : option jsstring :=
  snd <$> search (var_at "{{setglobalvar::lumia_personality_") content.

End Re.

(** ** scripts/convertPacks.js *)

Module Script.
Import Str.

(** [GENDER.SHE_HER]. *)
Definition SHE_HER : Z := 0.

Record Metadata := mkMetadata {
  image : option jsstring;
  author : option jsstring;
  content : jsstring }.

(** [/\[<opening>([^\]]+)\]/] tried at one index: the whole match and
    group 1.  The greedy class takes every character up to the first
    [\]], which must exist and must not come first. *)
Definition tag_at (opening s : jsstring) : option (jsstring * jsstring) :=
  match strip_prefix opening s with
  | Some r =>
      match span (fun c => negb (eqc c "]")) r with
      | (c :: v, c' :: _) =>
          if eqc c' "]" then Some (opening ++ (c :: v) ++ "]", c :: v)
          else None
      | _ => None
      end
  | None => None
  end.

(** [content.match(/\[lumia_img=([^\]]+)\]/)] as (match[0], match[1]). *)
Definition imgMatch (content : jsstring) : option (jsstring * jsstring) :=
  snd <$> search (tag_at "[lumia_img=") content.

(** [content.match(/\[lumia_author=([^\]]+)\]/)]. *)
Definition authMatch (content : jsstring) : option (jsstring * jsstring) :=
  snd <$> search (tag_at "[lumia_author=") content.

Definition extractMetadata (content : jsstring) : Metadata :=
  let cleanContent := content in
  let '(image, cleanContent) :=
    match imgMatch content with
    | Some (whole, g) => (Some (trim g), trim (replaceFirst whole cleanContent))
    | None => (None, cleanContent)
    end in
  let '(author, cleanContent) :=
    match authMatch content with
    | Some (whole, g) => (Some (trim g), trim (replaceFirst whole cleanContent))
    | None => (None, cleanContent)
    end in
  mkMetadata image author cleanContent.

(** [oldItem.k] where [oldItem] is known not to be null or undefined. *)
Definition prop (o : value) (k : jsstring) : value := Js.get_opt o k.

(** [a ?? b]. *)
Definition nullish (a b : value) : value :=
  match a with VUndef | VNull => b | _ => a end.

Definition convertLumiaItem (oldItem : value) : value :=
  VObj [
    (lit "lumiaName", Js.or (prop oldItem "lumiaDefName") (prop oldItem "lumiaName"));
    (lit "lumiaDefinition",
      Js.or (Js.or (prop oldItem "lumiaDef") (prop oldItem "lumiaDefinition")) VNull);
    (lit "lumiaPersonality",
      Js.or (Js.or (prop oldItem "lumia_personality") (prop oldItem "lumiaPersonality")) VNull);
    (lit "lumiaBehavior",
      Js.or (Js.or (prop oldItem "lumia_behavior") (prop oldItem "lumiaBehavior")) VNull);
    (lit "avatarUrl",
      Js.or (Js.or (prop oldItem "lumia_img") (prop oldItem "avatarUrl")) VNull);
    (lit "genderIdentity", nullish (prop oldItem "genderIdentity") (VNum SHE_HER));
    (lit "authorName",
      Js.or (Js.or (prop oldItem "defAuthor") (prop oldItem "authorName")) VNull);
    (lit "version", VNum 1) ].

Definition convertLoomItem (oldItem : value) : value :=
  VObj [
    (lit "loomName", prop oldItem "loomName");
    (lit "loomContent", prop oldItem "loomContent");
    (lit "loomCategory", prop oldItem "loomCategory");
    (lit "authorName", Js.or (prop oldItem "authorName") VNull);
    (lit "version", VNum 1) ].

(** The Lumia object under construction in [lumiaMap]. *)
Record Lumia := mkLumia {
  lumiaName : jsstring;
  avatarUrl : option jsstring;
  lumiaPersonality : option jsstring;
  lumiaBehavior : option jsstring;
  lumiaDefinition : option jsstring;
  authorName : option jsstring;
  genderIdentity : Z;
  version : Z }.

Definition newLumia (name : jsstring) : Lumia :=
  mkLumia name None None None None None SHE_HER 1.

Definition lumia_value (l : Lumia) : value :=
  VObj [
    (lit "lumiaName", VStr (lumiaName l));
    (lit "avatarUrl", Js.of_option (avatarUrl l));
    (lit "lumiaPersonality", Js.of_option (lumiaPersonality l));
    (lit "lumiaBehavior", Js.of_option (lumiaBehavior l));
    (lit "lumiaDefinition", Js.of_option (lumiaDefinition l));
    (lit "authorName", Js.of_option (authorName l));
    (lit "genderIdentity", VNum (genderIdentity l));
    (lit "version", VNum (version l)) ].

Record LoomItem := mkLoom {
  loomName : jsstring;
  loomContent : jsstring;
  loomCategory : jsstring }.

Definition loom_value (l : LoomItem) : value :=
  VObj [
    (lit "loomName", VStr (loomName l));
    (lit "loomContent", VStr (loomContent l));
    (lit "loomCategory", VStr (loomCategory l));
    (lit "authorName", VNull);
    (lit "version", VNum 1) ].

(** [lumiaMap]: a [Map] from name to the object under construction, in
    insertion order.  The objects are shared with the map, so an update
    of one is an update in place of its binding. *)
Definition lumiaMap := list (jsstring * Lumia).

Fixpoint map_get (name : jsstring) (m : lumiaMap) : option Lumia :=
  match m with
  | [] => None
  | (k, l) :: m' => if eqb name k then Some l else map_get name m'
  end.

Fixpoint map_set (name : jsstring) (l : Lumia) (m : lumiaMap) : lumiaMap :=
  match m with
  | [] => [(name, l)]
  | (k, l') :: m' =>
      if eqb name k then (k, l) :: m' else (k, l') :: map_set name l m'
  end.

(** [!lumia.lumiaBehavior]. *)
Definition unset (o : option jsstring) : bool :=
  match o with
  | None | Some [] => true
  | Some (_ :: _) => false
  end.

(** [if (meta.image) ...]. *)
Definition set_if (o : option jsstring) : bool := negb (unset o).

(** [/^(.+?)\s*\(/]: group 1. *)
Definition categoryMatch (comment : jsstring) : option jsstring :=
  lazy_dots1 (fun r => starts_with "(" (dropWhile is_ws r)) comment.

Definition isLoomCategory (category : jsstring) : bool :=
  eqb category "Loom Utilities" || eqb category "Retrofits"
  || eqb category "Narrative Style".

(** [(?:Loom Utilities|Retrofits|Narrative Style)] at the start. *)
Definition strip_loom_heading (s : jsstring) : option jsstring :=
  match strip_prefix "Loom Utilities" s with
  | Some r => Some r
  | None =>
      match strip_prefix "Retrofits" s with
      | Some r => Some r
      | None => strip_prefix "Narrative Style" s
      end
  end.

(** [/^(?:Loom Utilities|Retrofits|Narrative Style)\s*\((.+)\)\s*$/]:
    group 1.  After the opening parenthesis the text must be the group,
    a closing parenthesis and white space up to the end; the closing
    parenthesis is therefore the last character that is not white
    space, and the group is what comes before it. *)
Definition loomNameMatch (comment : jsstring) : option jsstring :=
  match strip_loom_heading comment with
  | Some r =>
      match strip_prefix "(" (dropWhile is_ws r) with
      | Some r1 =>
          match rev (trimEnd r1) with
          | c :: g =>
              if eqc c ")" && negb (eqb g []) && forallb (fun x => negb (is_lt x)) g
              then Some (rev g) else None
          | [] => None
          end
      | None => None
      end
  | None => None
  end.

Inductive kind := definition | behavior | personality.

(** The chain of tests that assigns [type]. *)
Definition entryType (outletName : value) (comment : jsstring)
    (cat : option jsstring) (content : jsstring) : option kind :=
  let commentLower := toLowerCase comment in
  if Js.is_str "Lumia_Description" outletName || includes "definition" commentLower
  then Some definition
  else if Js.is_str "Lumia_Behavior" outletName || includes "behavior" commentLower
  then Some behavior
  else if Js.is_str "Lumia_Personality" outletName || includes "personality" commentLower
  then Some personality
  else if match cat with
          | Some g => eqb (toLowerCase (trim g)) "lumia"
          | None => false
          end
  then Some definition
  else if includes "[lumia_img=" content
  then Some definition
  else None.

Definition set_avatarUrl (v : option jsstring) (l : Lumia) : Lumia :=
  mkLumia (lumiaName l) v (lumiaPersonality l) (lumiaBehavior l)
    (lumiaDefinition l) (authorName l) (genderIdentity l) (version l).
Definition set_lumiaPersonality (v : option jsstring) (l : Lumia) : Lumia :=
  mkLumia (lumiaName l) (avatarUrl l) v (lumiaBehavior l)
    (lumiaDefinition l) (authorName l) (genderIdentity l) (version l).
Definition set_lumiaBehavior (v : option jsstring) (l : Lumia) : Lumia :=
  mkLumia (lumiaName l) (avatarUrl l) (lumiaPersonality l) v
    (lumiaDefinition l) (authorName l) (genderIdentity l) (version l).
Definition set_lumiaDefinition (v : option jsstring) (l : Lumia) : Lumia :=
  mkLumia (lumiaName l) (avatarUrl l) (lumiaPersonality l) (lumiaBehavior l)
    v (authorName l) (genderIdentity l) (version l).
Definition set_authorName (v : option jsstring) (l : Lumia) : Lumia :=
  mkLumia (lumiaName l) (avatarUrl l) (lumiaPersonality l) (lumiaBehavior l)
    (lumiaDefinition l) v (genderIdentity l) (version l).

(** The effect of one entry of type [type] on its Lumia object (the
    [if (type === ...)] chain). *)
Definition applyEntry (type : option kind) (content : jsstring) (lumia : Lumia)
  : Lumia :=
  match type with
  | Some definition =>
      let meta := extractMetadata content in
      let lumia := set_lumiaDefinition (Some (Script.content meta)) lumia in
      let lumia :=
        if set_if (image meta) then set_avatarUrl (image meta) lumia else lumia in
      if set_if (author meta) then set_authorName (author meta) lumia else lumia
  | Some behavior => set_lumiaBehavior (Some content) lumia
  | Some personality =>
      let lumia :=
        match Re.behaviorMatch content with
        | Some g =>
            if unset (lumiaBehavior lumia)
            then set_lumiaBehavior (Some (trim g)) lumia
            else lumia
        | None => lumia
        end in
      match Re.personalityMatch content with
      | Some g => set_lumiaPersonality (Some (trim g)) lumia
      | None => set_lumiaPersonality (Some content) lumia
      end
  | None => lumia
  end.

(** [(v).trim()]: a call of [trim] on anything but a string throws. *)
Definition call_trim (v : value) : result jsstring :=
  match v with
  | VStr s => Ok (trim s)
  | _ => Throw TypeError
  end.

Definition state : Type := lumiaMap * list LoomItem.

(** One iteration of [for (const entry of entries)]. *)
Definition step (st : state) (entry : value) : result state :=
  let '(lumiaMap, loomItems) := st in
  c ← Js.get entry "content";
  match c with
  | VStr (ch :: cs) =>
      let content := ch :: cs in
      cm ← Js.get entry "comment";
      comment ← call_trim (Js.or cm (VStr []));
      let cat := categoryMatch comment in
      let category := match cat with Some g => trim g | None => [] end in
      if match cat with Some _ => isLoomCategory category | None => false end
      then
        match loomNameMatch comment with
        | None => Ok st
        | Some g =>
            Ok (lumiaMap, loomItems ++ [mkLoom (trim g) (trim content) category])
        end
      else
        match Re.nameMatch comment with
        | None => Ok st
        | Some g =>
            let name := trim g in
            let '(lumia, lumiaMap) :=
              match map_get name lumiaMap with
              | Some l => (l, lumiaMap)
              | None => (newLumia name, map_set name (newLumia name) lumiaMap)
              end in
            outletName ← Js.get entry "outletName";
            let type := entryType outletName comment cat content in
            Ok (map_set name (applyEntry type content lumia) lumiaMap, loomItems)
        end
  | _ => Ok st
  end.

Fixpoint loop (entries : list value) (st : state) : result state :=
  match entries with
  | [] => Ok st
  | entry :: rest => st' ← step st entry; loop rest st'
  end.

(** The entries selected at the head of [processWorldBook]; [None] is the
    early return of an empty result. *)
Definition entriesOf (data : value) : option (list value) :=
  match data with
  | VArr l => Some l
  | _ =>
      if Js.truthy data && Js.truthy (Js.get_opt data "entries")
      then Some (Js.object_values (Js.get_opt data "entries"))
      else None
  end.

(** The two sequences of the returned object. *)
Definition processWorldBook (data : value)
  : result (list Lumia * list LoomItem) :=
  match entriesOf data with
  | None => Ok ([], [])
  | Some entries =>
      '(lumiaMap, loomItems) ← loop entries ([], []);
      Ok (map snd lumiaMap, loomItems)
  end.

(** The loop of [convertPack] over [inputData.items]. *)
Fixpoint convertItems (items : list value) (lumiaItems loomItems : list value)
  : result (list value * list value) :=
  match items with
  | [] => Ok (lumiaItems, loomItems)
  | item :: rest =>
      a ← Js.get item "lumiaDefName";
      b ← Js.get item "lumiaName";
      if Js.truthy (Js.or a b)
      then convertItems rest (lumiaItems ++ [convertLumiaItem item]) loomItems
      else
        c ← Js.get item "loomCategory";
        if Js.truthy c
        then convertItems rest lumiaItems (loomItems ++ [convertLoomItem item])
        else convertItems rest lumiaItems loomItems
  end.

(** The pack returned for a World Book. *)
Definition worldBookPack (sourceName : jsstring)
    (lumiaItems : list Lumia) (loomItems : list LoomItem) : value :=
  VObj [
    (lit "packName", VStr sourceName);
    (lit "packAuthor", VNull);
    (lit "coverUrl", VNull);
    (lit "version", VNum 1);
    (lit "packExtras", VArr []);
    (lit "lumiaItems", VArr (map lumia_value lumiaItems));
    (lit "loomItems", VArr (map loom_value loomItems)) ].

(** The pack returned for the old internal format. *)
Definition legacyPack (inputData : value) (sourceName : jsstring)
    (lumiaItems loomItems : list value) : value :=
  VObj [
    (lit "packName",
      Js.or (Js.or (prop inputData "name") (prop inputData "packName"))
        (VStr sourceName));
    (lit "packAuthor",
      Js.or (Js.or (prop inputData "author") (prop inputData "packAuthor")) VNull);
    (lit "coverUrl", Js.or (prop inputData "coverUrl") VNull);
    (lit "version", VNum 1);
    (lit "packExtras", Js.or (prop inputData "packExtras") (VArr []));
    (lit "lumiaItems", VArr lumiaItems);
    (lit "loomItems", VArr loomItems) ].

(** [convertPack(inputData, sourceName)] with the source name given. *)
Definition convertPack (inputData : value) (sourceName : jsstring)
  : result value :=
  lumiaItems ← Js.get inputData "lumiaItems";
  loomItems ← Js.get inputData "loomItems";
  if Js.truthy (Js.or lumiaItems loomItems) then Ok inputData
  else
    entries ← Js.get inputData "entries";
    if Js.truthy entries || Js.isArray inputData
    then
      '(lumiaItems, loomItems) ← processWorldBook inputData;
      Ok (worldBookPack sourceName lumiaItems loomItems)
    else
      items ← Js.get inputData "items";
      match items with
      | VArr l =>
          '(lumiaItems, loomItems) ← convertItems l [] [];
          Ok (legacyPack inputData sourceName lumiaItems loomItems)
      | _ => Throw UnknownInputFormat
      end.

End Script.

(** ** The extension module: legacy settings and their migration *)

Module Legacy.
Import Str.

Record Metadata := mkMetadata {
  image : option jsstring;
  author : option jsstring;
  content : jsstring }.

(** [/\[<opening>(.+?)\]/] tried at one index: the whole match and
    group 1. *)
Definition tag_at (opening s : jsstring) : option (jsstring * jsstring) :=
  match strip_prefix opening s with
  | Some r =>
      match lazy_dots1 (starts_with "]") r with
      | Some g => Some (opening ++ g ++ "]", g)
      | None => None
      end
  | None => None
  end.

Definition imgMatch (content : jsstring) : option (jsstring * jsstring) :=
  snd <$> search (tag_at "[lumia_img=") content.

Definition authMatch (content : jsstring) : option (jsstring * jsstring) :=
  snd <$> search (tag_at "[lumia_author=") content.

Definition extractMetadata (content : jsstring) : Metadata :=
  let cleanContent := content in
  let '(image, cleanContent) :=
    match imgMatch content with
    | Some (whole, g) => (Some (trim g), trim (replaceFirst whole cleanContent))
    | None => (None, cleanContent)
    end in
  let '(author, cleanContent) :=
    match authMatch content with
    | Some (whole, g) => (Some (trim g), trim (replaceFirst whole cleanContent))
    | None => (None, cleanContent)
    end in
  mkMetadata image author cleanContent.

Record Lumia := mkLumia {
  lumiaDefName : jsstring;
  lumia_img : option jsstring;
  lumia_personality : option jsstring;
  lumia_behavior : option jsstring;
  lumiaDef : option jsstring;
  defAuthor : option jsstring }.

Definition newLumia (name : jsstring) : Lumia :=
  mkLumia name None None None None None.

Definition lumia_value (l : Lumia) : value :=
  VObj [
    (lit "lumiaDefName", VStr (lumiaDefName l));
    (lit "lumia_img", Js.of_option (lumia_img l));
    (lit "lumia_personality", Js.of_option (lumia_personality l));
    (lit "lumia_behavior", Js.of_option (lumia_behavior l));
    (lit "lumiaDef", Js.of_option (lumiaDef l));
    (lit "defAuthor", Js.of_option (defAuthor l)) ].

Definition set_lumia_img (v : option jsstring) (l : Lumia) : Lumia :=
  mkLumia (lumiaDefName l) v (lumia_personality l) (lumia_behavior l)
    (lumiaDef l) (defAuthor l).
Definition set_lumia_personality (v : option jsstring) (l : Lumia) : Lumia :=
  mkLumia (lumiaDefName l) (lumia_img l) v (lumia_behavior l)
    (lumiaDef l) (defAuthor l).
Definition set_lumia_behavior (v : option jsstring) (l : Lumia) : Lumia :=
  mkLumia (lumiaDefName l) (lumia_img l) (lumia_personality l) v
    (lumiaDef l) (defAuthor l).
Definition set_lumiaDef (v : option jsstring) (l : Lumia) : Lumia :=
  mkLumia (lumiaDefName l) (lumia_img l) (lumia_personality l)
    (lumia_behavior l) v (defAuthor l).
Definition set_defAuthor (v : option jsstring) (l : Lumia) : Lumia :=
  mkLumia (lumiaDefName l) (lumia_img l) (lumia_personality l)
    (lumia_behavior l) (lumiaDef l) v.

Definition entryType (outletName : value) (comment : jsstring)
  : option Script.kind :=
  let commentLower := toLowerCase comment in
  if Js.is_str "Lumia_Description" outletName || includes "definition" commentLower
  then Some Script.definition
  else if Js.is_str "Lumia_Behavior" outletName || includes "behavior" commentLower
  then Some Script.behavior
  else if Js.is_str "Lumia_Personality" outletName || includes "personality" commentLower
  then Some Script.personality
  else None.

Definition applyEntry (type : option Script.kind) (content : jsstring)
    (lumia : Lumia) : Lumia :=
  match type with
  | Some Script.definition =>
      let meta := extractMetadata content in
      let lumia := set_lumiaDef (Some (Legacy.content meta)) lumia in
      let lumia :=
        if Script.set_if (image meta) then set_lumia_img (image meta) lumia
        else lumia in
      if Script.set_if (author meta) then set_defAuthor (author meta) lumia
      else lumia
  | Some Script.behavior => set_lumia_behavior (Some content) lumia
  | Some Script.personality =>
      let lumia :=
        match Re.behaviorMatch content with
        | Some g =>
            if Script.unset (lumia_behavior lumia)
            then set_lumia_behavior (Some (trim g)) lumia
            else lumia
        | None => lumia
        end in
      match Re.personalityMatch content with
      | Some g => set_lumia_personality (Some (trim g)) lumia
      | None => set_lumia_personality (Some content) lumia
      end
  | None => lumia
  end.

Fixpoint map_get (name : jsstring) (m : list (jsstring * Lumia)) : option Lumia :=
  match m with
  | [] => None
  | (k, l) :: m' => if eqb name k then Some l else map_get name m'
  end.

Fixpoint map_set (name : jsstring) (l : Lumia) (m : list (jsstring * Lumia))
  : list (jsstring * Lumia) :=
  match m with
  | [] => [(name, l)]
  | (k, l') :: m' =>
      if eqb name k then (k, l) :: m' else (k, l') :: map_set name l m'
  end.

Definition step (m : list (jsstring * Lumia)) (entry : value)
  : result (list (jsstring * Lumia)) :=
  c ← Js.get entry "content";
  match c with
  | VStr (ch :: cs) =>
      let content := ch :: cs in
      cm ← Js.get entry "comment";
      comment ← Script.call_trim (Js.or cm (VStr []));
      match Re.nameMatch comment with
      | None => Ok m
      | Some g =>
          let name := trim g in
          let '(lumia, m) :=
            match map_get name m with
            | Some l => (l, m)
            | None => (newLumia name, map_set name (newLumia name) m)
            end in
          outletName ← Js.get entry "outletName";
          let type := entryType outletName comment in
          Ok (map_set name (applyEntry type content lumia) m)
      end
  | _ => Ok m
  end.

Fixpoint loop (entries : list value) (m : list (jsstring * Lumia))
  : result (list (jsstring * Lumia)) :=
  match entries with
  | [] => Ok m
  | entry :: rest => m' ← step m entry; loop rest m'
  end.

(** The array returned by [processWorldBook]. *)
Definition processWorldBook (data : value) : result (list value) :=
  match Script.entriesOf data with
  | None => Ok []
  | Some entries =>
      m ← loop entries [];
      Ok (map (fun kl => lumia_value (snd kl)) m)
  end.

(** The [settings] object.  [packs] is the dictionary of packs; the three
    legacy keys are absent ([None]) or present; when present,
    [lumiaLibrary] is the array that version 1 stored.  Keys of the
    object that the migration never touches are left out. *)
Record Settings := mkSettings {
  packs : gmap jsstring value;
  selectedDefinition : value;
  selectedBehaviors : value;
  selectedPersonalities : value;
  lumiaOOCInterval : value;
  lumiaLibrary : option (list value);
  worldBookData : option value;
  worldBookUrl : option value }.

(** Reading a key that may be absent. *)
Definition read (o : option value) : value := default VUndef o.

(** A canonical array index written in decimal: digits without a leading
    zero, or the single digit zero. *)
Definition digit (c : ascii) : option Z :=
  let n := code c in
  if ((48 <=? n) && (n <=? 57))%nat then Some (Z.of_nat n - 48) else None.

Fixpoint digits (acc : Z) (s : jsstring) : option Z :=
  match s with
  | [] => Some acc
  | c :: s' =>
      match digit c with
      | Some d => digits (10 * acc + d) s'
      | None => None
      end
  end.

Definition parse_index (s : jsstring) : option Z :=
  match s with
  | [] => None
  | [c] => digit c
  | c :: _ => if eqc c "0" then None else digits 0 s
  end.

(** The array index named by [idx] in [items[idx]]: the property key is
    the string of [idx], which names an element only when it is a
    canonical index. *)
Fixpoint key_index (idx : value) : option Z :=
  match idx with
  | VNum n => if 0 <=? n then Some n else None
  | VStr s => parse_index s
  | VArr [x] =>
      match x with
      | VUndef | VNull => None
      | _ => key_index x
      end
  | _ => None
  end.

(** [items[idx]] on an array; every other property of an array that a key
    can name (its length, its methods) has no [lumiaDefName]. *)
Definition element (items : list value) (idx : value) : value :=
  match key_index idx with
  | Some n =>
      if n <? Z.of_nat (length items)
      then default VUndef (items !! Z.to_nat n)
      else VUndef
  | None => VUndef
  end.

(** [const getName = (idx) => items[idx]?.lumiaDefName]. *)
Definition getName (items : list value) (idx : value) : value :=
  Js.get_opt (element items idx) "lumiaDefName".

Definition packName : jsstring := "Default (Legacy)".

Definition selection (name : value) : value :=
  VObj [ (lit "packName", VStr packName); (lit "itemName", name) ].

(** The selection a legacy index stands for:
    [name ? { packName, itemName: name } : null] with
    [name = getName(idx)]. *)
Definition indexSelection (items : list value) (idx : value) : value :=
  let name := getName items idx in
  if Js.truthy name then selection name else VNull.

(** The statement that migrates [settings.selectedDefinition]. *)
Definition migrateDefinition (items : list value) (sel : value) : value :=
  match sel with
  | VNum _ => indexSelection items sel
  | _ => sel
  end.

(** The statement that migrates [settings.selectedBehaviors], and the
    same one for [settings.selectedPersonalities]. *)
Definition migrateList (items : list value) (sel : value) : value :=
  match sel with
  | VArr (VNum n :: rest) =>
      VArr (List.filter Js.truthy (map (indexSelection items) (VNum n :: rest)))
  | _ => VArr []
  end.

(** The guard of the migration. *)
Definition guard (settings : Settings) : bool :=
  (match lumiaLibrary settings with
   | Some _ => true
   | None => Js.truthy (read (worldBookData settings))
   end)
  && bool_decide (packs settings = ∅).

(** The items the migration works on. *)
Definition legacyItems (settings : Settings) : result (list value) :=
  let items := default [] (lumiaLibrary settings) in
  if (length items =? 0)%nat && Js.truthy (read (worldBookData settings))
  then processWorldBook (read (worldBookData settings))
  else Ok items.

Definition ensureDefaults (settings : Settings) : Settings :=
  mkSettings
    (packs settings)
    (selectedDefinition settings)
    (if Js.truthy (selectedBehaviors settings)
     then selectedBehaviors settings else VArr [])
    (if Js.truthy (selectedPersonalities settings)
     then selectedPersonalities settings else VArr [])
    (match lumiaOOCInterval settings with
     | VUndef => VNull
     | v => v
     end)
    (lumiaLibrary settings)
    (worldBookData settings)
    (worldBookUrl settings).

(** [migrateSettings()] on the module's [settings]: the returned flag and
    the settings afterwards. *)
Definition migrateSettings (settings : Settings) : result (bool * Settings) :=
  '(migrated, settings) ←
    (if guard settings
     then
       items ← legacyItems settings;
       if (0 <? length items)%nat
       then
         Ok (true,
             mkSettings
               (<[packName :=
                    VObj [ (lit "name", VStr packName);
                           (lit "items", VArr items);
                           (lit "url",
                             Js.or (read (worldBookUrl settings)) (VStr "Legacy")) ]]>
                  (packs settings))
               (migrateDefinition items (selectedDefinition settings))
               (migrateList items (selectedBehaviors settings))
               (migrateList items (selectedPersonalities settings))
               (lumiaOOCInterval settings)
               None None None)
       else Ok (false, settings)
     else Ok (false, settings));
  Ok (migrated, ensureDefaults settings).

End Legacy.

(** ** Definitions used to state the properties *)

Module Props.
Import Str.

(** The content and the trimmed comment of an entry that reaches the
    classification: an object whose content is a non-empty string and
    whose comment is a string or is missing (any falsy value). *)
Definition entryText (entry : value) : option (jsstring * jsstring) :=
  match entry with
  | VObj fs =>
      match Js.lookup "content" fs with
      | VStr (c :: cs) =>
          match Js.or (Js.lookup "comment" fs) (VStr []) with
          | VStr s => Some (c :: cs, trim s)
          | _ => None
          end
      | _ => None
      end
  | _ => None
  end.

(** The comment is one of the three Loom category headings. *)
Definition loomHeading (comment : jsstring) : bool :=
  match Script.categoryMatch comment with
  | Some g => Script.isLoomCategory (trim g)
  | None => false
  end.

(** The Lumia fragment an entry stands for: name, type and raw content. *)
Definition fragmentOf (entry : value)
  : option (jsstring * option Script.kind * jsstring) :=
  match entryText entry with
  | Some (content, comment) =>
      if loomHeading comment then None
      else
        match Re.nameMatch comment with
        | Some g =>
            Some (trim g,
                  Script.entryType (Js.get_opt entry "outletName") comment
                    (Script.categoryMatch comment) content,
                  content)
        | None => None
        end
  | None => None
  end.

Definition fragmentName (entry : value) : option jsstring :=
  (fun f => fst (fst f)) <$> fragmentOf entry.

(** The trimmed comment of a raw entry: of an object whose comment, when
    there is one, is text, as the data model has it, and also of a string,
    number, boolean or array, which has no comment. *)
Definition commentOf (entry : value) : option jsstring :=
  match entry with
  | VUndef | VNull => None
  | VObj fs =>
      match Js.or (Js.lookup "comment" fs) (VStr []) with
      | VStr s => Some (trim s)
      | _ => None
      end
  | _ => Some (trim [])
  end.

Definition rawEntry (entry : value) : bool :=
  match commentOf entry with Some _ => true | None => false end.

(** Adding a name to the keys of the map: at the end, unless present. *)
Definition add_name (ks : list jsstring) (n : jsstring) : list jsstring :=
  if bool_decide (n ∈ ks) then ks else ks ++ [n].

(** The distinct elements of a list in the order of their first
    occurrence. *)
Fixpoint first_seen (l : list jsstring) : list jsstring :=
  match l with
  | [] => []
  | x :: l' => x :: List.filter (fun y => negb (eqb y x)) (first_seen l')
  end.

(** The item a legacy index resolves to: its name, when the index is in
    range and the item there has a (truthy) name. *)
Definition resolve (items : list value) (i : Z) : option value :=
  if (0 <=? i) && (i <? Z.of_nat (length items))
  then
    let name := Js.get_opt (default VUndef (items !! Z.to_nat i)) "lumiaDefName" in
    if Js.truthy name then Some name else None
  else None.

(** Every binding of the map carries its own key as its name. *)
Definition named (m : Script.lumiaMap) : Prop :=
  Forall (fun kl => Script.lumiaName (snd kl) = fst kl) m.

(** [y] is not among [ks]. *)
Definition fresh (ks : list jsstring) (y : jsstring) : bool :=
  negb (bool_decide (y ∈ ks)).

(** The payload has an own property [k]. *)
Definition exposes (k : jsstring) (payload : value) : bool :=
  match payload with
  | VObj fs => bool_decide (k ∈ map fst fs)
  | _ => false
  end.

(** The three tests of [convertPack], in the order of the source. *)
Definition canonical (payload : value) : bool :=
  Js.truthy (Js.or (Js.get_opt payload "lumiaItems") (Js.get_opt payload "loomItems")).

Definition entryCollection (payload : value) : bool :=
  Js.truthy (Js.get_opt payload "entries") || Js.isArray payload.

Definition internalPack (payload : value) : bool :=
  Js.isArray (Js.get_opt payload "items").

Definition nullish (v : value) : bool :=
  match v with VUndef | VNull => true | _ => false end.

(** The multi-selection is in numeric-index form: an array that is not
    empty and starts with a number. *)
Definition numericForm (sel : value) : bool :=
  match sel with
  | VArr (first :: _) => Js.is_number first
  | _ => false
  end.

(** *** First occurrences of inline tags

    The text of a tag with opening [o] and value [v], the values a tag
    can have (not empty, without a closing bracket), a tag starting at
    the head of a text, the absence of any tag in a text, and the
    absence of any tag starting inside [pre] when [pre] is followed by
    [t]: when [t] starts with a tag, that tag is then the first
    occurrence in [pre ++ t]. *)
Definition IMG : jsstring := "[lumia_img=".
Definition AUTHOR : jsstring := "[lumia_author=".

Definition tagText (o v : jsstring) : jsstring := o ++ v ++ "]".

Definition tagValue (v : jsstring) : bool :=
  negb (eqb v []) && forallb (fun c => negb (eqc c "]")) v.

Definition startsTag (o t : jsstring) : Prop :=
  exists v rest, tagValue v = true /\ t = tagText o v ++ rest.

Definition noTag (o s : jsstring) : Prop :=
  forall p q, s = p ++ q -> ~ startsTag o q.

Definition firstTag (o pre t : jsstring) : Prop :=
  forall p q, pre = p ++ q -> q <> [] -> ~ startsTag o (q ++ t).

(** What the extractor is specified to return: the trimmed value of the
    first tag of each kind, null for a kind that does not occur, and the
    text without these first occurrences, trimmed, everything else left
    in place.  The text is returned as it is when no tag occurs.  The
    cases with both kinds require the two first tags to lie apart; when
    the image tag comes first, taking it out must not make an author tag
    appear before the first one. *)
Inductive extracts : jsstring -> Script.Metadata -> Prop :=
| extracts_none c :
    noTag IMG c -> noTag AUTHOR c ->
    extracts c (Script.mkMetadata None None c)
| extracts_image pre v post :
    tagValue v = true ->
    firstTag IMG pre (tagText IMG v ++ post) ->
    noTag AUTHOR (pre ++ tagText IMG v ++ post) ->
    extracts (pre ++ tagText IMG v ++ post)
      (Script.mkMetadata (Some (trim v)) None (trim (pre ++ post)))
| extracts_author pre w post :
    tagValue w = true ->
    firstTag AUTHOR pre (tagText AUTHOR w ++ post) ->
    noTag IMG (pre ++ tagText AUTHOR w ++ post) ->
    extracts (pre ++ tagText AUTHOR w ++ post)
      (Script.mkMetadata None (Some (trim w)) (trim (pre ++ post)))
| extracts_author_image a w b v d :
    tagValue w = true -> tagValue v = true ->
    firstTag AUTHOR a (tagText AUTHOR w ++ b ++ tagText IMG v ++ d) ->
    firstTag IMG (a ++ tagText AUTHOR w ++ b) (tagText IMG v ++ d) ->
    extracts (a ++ tagText AUTHOR w ++ b ++ tagText IMG v ++ d)
      (Script.mkMetadata (Some (trim v)) (Some (trim w)) (trim (a ++ b ++ d)))
| extracts_image_author a v b w d :
    tagValue v = true -> tagValue w = true ->
    firstTag IMG a (tagText IMG v ++ b ++ tagText AUTHOR w ++ d) ->
    firstTag AUTHOR (a ++ tagText IMG v ++ b) (tagText AUTHOR w ++ d) ->
    firstTag AUTHOR (a ++ b) (tagText AUTHOR w ++ d) ->
    extracts (a ++ tagText IMG v ++ b ++ tagText AUTHOR w ++ d)
      (Script.mkMetadata (Some (trim v)) (Some (trim w)) (trim (a ++ b ++ d))).

(** A test for [firstTag]: the matcher fails at every index of [pre]. *)
Fixpoint noneBefore {R} (m : jsstring -> option R) (pre t : jsstring) : bool :=
  match pre with
  | [] => true
  | _ :: pre' =>
      match m (pre ++ t) with
      | Some _ => false
      | None => noneBefore m pre' t
      end
  end.

(** Data of the examples. *)
Definition entry (comment content : string) : value :=
  VObj [ (lit "comment", VStr comment); (lit "content", VStr content) ].

Definition exampleEntries : list value :=
  [ entry "Definition (Aria)" "A quiet librarian. [lumia_img=http://x/a.png]";
    entry "Narrative Style (Gothic)" "Write in a dark tone.";
    entry "Behavior (Bo)" "Loud.";
    entry "Personality (Aria)" "Shy." ].

Definition legacyItem (name : string) : value :=
  VObj [ (lit "lumiaDefName", VStr name); (lit "lumiaDef", VStr "text") ].

Definition exampleItems : list value :=
  [ legacyItem "Aria"; legacyItem "Bo"; legacyItem "Cy"; legacyItem "Di";
    legacyItem "Ed" ].

Definition exampleSettings : Legacy.Settings :=
  Legacy.mkSettings ∅ (VNum 2)
    (VArr [VNum 0; VNum 99; VNum 4])
    (VArr [Legacy.selection (VStr "Aria")])
    VUndef (Some exampleItems) None (Some (VStr "http://x/book.json")).

End Props.

(** ** scripts/convertPacks.js: the default output path of [main] *)

Module Cli.
Import Str.

(** [inputPath.replace(/\.json$/i, '.converted.json')]: the pattern is
    anchored at the end of the path and ignores the case of its four
    letters (only ASCII letters fold to ASCII letters). *)
Definition defaultOutputPath (inputPath : jsstring) : jsstring :=
  let n := length inputPath in
  if (5 <=? n)%nat && eqb (toLowerCase (drop (n - 5) inputPath)) ".json"
  then take (n - 5) inputPath ++ ".converted.json"
  else inputPath.

End Cli.

(** ** The extension module: library look-up, selections, import, macros *)

Module Ui.
Import Str.

(** The names of the properties that the dictionary of packs, a plain
    object, inherits from [Object.prototype]: reading one of them finds a
    function (or, for [__proto__], the prototype), which is truthy and has
    no [items]. *)
Definition protoKeys : list jsstring :=
  [ lit "constructor"; lit "__defineGetter__"; lit "__defineSetter__";
    lit "hasOwnProperty"; lit "__lookupGetter__"; lit "__lookupSetter__";
    lit "isPrototypeOf"; lit "propertyIsEnumerable"; lit "toString";
    lit "valueOf"; lit "__proto__"; lit "toLocaleString" ].

Definition protoKey (k : jsstring) : bool := bool_decide (k ∈ protoKeys).

(** [items.find(i => i.lumiaDefName === itemName)] on the elements of an
    array, for a string [itemName]. *)
Fixpoint find_item (itemName : jsstring) (items : list value) : result value :=
  match items with
  | [] => Ok VUndef
  | i :: rest =>
      name ← Js.get i "lumiaDefName";
      if Js.is_str itemName name then Ok i else find_item itemName rest
  end.

(** [getItemFromLibrary(packName, itemName)] for two strings. *)
Definition getItemFromLibrary (settings : Legacy.Settings)
    (packName itemName : jsstring) : result value :=
  match Legacy.packs settings !! packName with
  | Some pack =>
      if Js.truthy pack
      then
        items ← Js.get pack "items";
        match items with
        | VArr l => find_item itemName l
        | _ => Throw TypeError
        end
      else Ok VNull
  | None => if protoKey packName then Throw TypeError else Ok VNull
  end.

(** [s => s.packName !== packName] as the callback of [filter]. *)
Fixpoint filter_other (packName : jsstring) (l : list value) : result (list value) :=
  match l with
  | [] => Ok []
  | s :: rest =>
      p ← Js.get s "packName";
      rest' ← filter_other packName rest;
      Ok (if Js.is_str packName p then rest' else s :: rest')
  end.

(** [selection.filter(s => s.packName !== packName)]: only an array has
    [filter]. *)
Definition call_filter_other (packName : jsstring) (selection : value)
  : result value :=
  match selection with
  | VArr l => l' ← filter_other packName l; Ok (VArr l')
  | _ => Throw TypeError
  end.

(** The handler of the Remove Pack button once the user has confirmed,
    up to [saveSettings()].  [packName] is what the data attribute of the
    button yields, taken here to be a string (jQuery turns a value that
    reads as a number, a boolean, null or JSON into that value). *)
Definition removePack (settings : Legacy.Settings) (packName : jsstring)
  : result Legacy.Settings :=
  let packs := delete packName (Legacy.packs settings) in
  let sd := Legacy.selectedDefinition settings in
  let selectedDefinition :=
    if Js.truthy sd && Js.is_str packName (Js.get_opt sd "packName")
    then VNull else sd in
  selectedBehaviors ← call_filter_other packName (Legacy.selectedBehaviors settings);
  selectedPersonalities ←
    call_filter_other packName (Legacy.selectedPersonalities settings);
  Ok (Legacy.mkSettings packs selectedDefinition selectedBehaviors
        selectedPersonalities (Legacy.lumiaOOCInterval settings)
        (Legacy.lumiaLibrary settings) (Legacy.worldBookData settings)
        (Legacy.worldBookUrl settings)).

(** [{ packName, itemName }]. *)
Definition ref (packName itemName : jsstring) : value :=
  VObj [ (lit "packName", VStr packName); (lit "itemName", VStr itemName) ].

(** [s => s.packName === packName && s.itemName === itemName]. *)
Definition is_ref (packName itemName : jsstring) (s : value) : result bool :=
  p ← Js.get s "packName";
  if Js.is_str packName p
  then i ← Js.get s "itemName"; Ok (Js.is_str itemName i)
  else Ok false.

(** [collection.findIndex(...)] followed by [splice(existsIdx, 1)] when an
    index is found and by [push({ packName, itemName })] when none is. *)
Fixpoint toggle_in (packName itemName : jsstring) (l : list value)
  : result (list value) :=
  match l with
  | [] => Ok [ref packName itemName]
  | s :: rest =>
      match is_ref packName itemName s with
      | Ok true => Ok rest
      | Ok false => rest' ← toggle_in packName itemName rest; Ok (s :: rest')
      | Throw e => Throw e
      end
  end.

(** The click on an item of a multi-selection modal: the new value of the
    collection.  The two names come from data attributes and are taken to
    be strings, as for the removal of a pack. *)
Definition toggleSelection (collection : value) (packName itemName : jsstring)
  : result value :=
  match collection with
  | VArr l => l' ← toggle_in packName itemName l; Ok (VArr l')
  | _ => Throw TypeError
  end.

(** [settings.packs[sourceName]] is truthy. *)
Definition packExists (settings : Legacy.Settings) (sourceName : jsstring) : bool :=
  match Legacy.packs settings !! sourceName with
  | Some pack => Js.truthy pack
  | None => protoKey sourceName
  end.

(** [handleNewBook(data, sourceName, isURL)] on the module's settings;
    [confirmed] is the answer to the overwrite question, asked only when
    the pack exists.  The notifications and the refresh of the page are
    left out.  The name [__proto__], whose assignment sets the prototype
    of the dictionary, is outside the model. *)
Definition handleNewBook (settings : Legacy.Settings) (data : value)
    (sourceName : jsstring) (isURL confirmed : bool) : result Legacy.Settings :=
  library ← Legacy.processWorldBook data;
  if (length library =? 0)%nat then Ok settings
  else if packExists settings sourceName && negb confirmed then Ok settings
  else
    Ok (Legacy.mkSettings
          (<[sourceName :=
               VObj [ (lit "name", VStr sourceName);
                      (lit "items", VArr library);
                      (lit "url", VStr (if isURL then sourceName else [])) ]]>
             (Legacy.packs settings))
          (Legacy.selectedDefinition settings)
          (Legacy.selectedBehaviors settings)
          (Legacy.selectedPersonalities settings)
          (Legacy.lumiaOOCInterval settings)
          (Legacy.lumiaLibrary settings) (Legacy.worldBookData settings)
          (Legacy.worldBookUrl settings)).

(** [url.split('/').pop() || url] in [fetchWorldBook]. *)
Definition lastSegment (url : jsstring) : jsstring :=
  rev (fst (span (fun c => negb (eqc c "/")) (rev url))).

Definition bookName (url : jsstring) : jsstring :=
  match lastSegment url with
  | [] => url
  | name => name
  end.

(** [text.replace(/c/g, by)] for a single character [c]. *)
Fixpoint replaceAll (c : ascii) (by_ : jsstring) (s : jsstring) : jsstring :=
  match s with
  | [] => []
  | x :: s' => (if eqc x c then by_ else [x]) ++ replaceAll c by_ s'
  end.

(** [escapeHtml(text)] on a string: five replacements, one after the
    other. *)
Definition escapeHtml (text : jsstring) : jsstring :=
  match text with
  | [] => text
  | _ =>
      replaceAll "'" "&#039;"
        (replaceAll "034" "&quot;"
           (replaceAll ">" "&gt;"
              (replaceAll "<" "&lt;"
                 (replaceAll "&" "&amp;" text))))
  end.

(** A selection reference as the settings declare it:
    [{ packName: string, itemName: string }]. *)
Record Ref := mkRef { packName : jsstring; itemName : jsstring }.

(** [contents.join(sep)]. *)
Fixpoint join (sep : jsstring) (l : list jsstring) : jsstring :=
  match l with
  | [] => []
  | [x] => x
  | x :: rest => x ++ sep ++ join sep rest
  end.

(** The callback of [selection.map] in [getLumiaContent]: the text one
    reference contributes. *)
Definition refContent (settings : Legacy.Settings) (type : jsstring) (sel : Ref)
  : result value :=
  item ← getItemFromLibrary settings (packName sel) (itemName sel);
  if negb (Js.truthy item) then Ok (VStr [])
  else if eqb type "behavior"
  then Ok (Js.or (Js.get_opt item "lumia_behavior") (VStr []))
  else if eqb type "personality"
  then Ok (Js.or (Js.get_opt item "lumia_personality") (VStr []))
  else Ok (VStr []).

(** [.filter(s => s).map(s => s.trim())] on the mapped values. *)
Fixpoint trimmedTexts (l : list value) : result (list jsstring) :=
  match l with
  | [] => Ok []
  | v :: rest =>
      if Js.truthy v
      then t ← Script.call_trim v; rest' ← trimmedTexts rest; Ok (t :: rest')
      else trimmedTexts rest
  end.

Fixpoint mapM {A B} (f : A -> result B) (l : list A) : result (list B) :=
  match l with
  | [] => Ok []
  | x :: rest => y ← f x; rest' ← mapM f rest; Ok (y :: rest')
  end.

(** [getLumiaContent(type, selection)] for an array of references. *)
Definition getLumiaContentMulti (settings : Legacy.Settings) (type : jsstring)
    (selection : list Ref) : result jsstring :=
  mapped ← mapM (refContent settings type) selection;
  contents ← trimmedTexts mapped;
  if eqb type "behavior" then Ok (trim (join (lit "
") contents))
  else if eqb type "personality" then Ok (trim (join (lit "

") contents))
  else Ok (trim (join (lit "
") contents)).

(** [getLumiaContent(type, selection)] for one reference. *)
Definition getLumiaContentSingle (settings : Legacy.Settings) (type : jsstring)
    (selection : Ref) : result jsstring :=
  item ← getItemFromLibrary settings (packName selection) (itemName selection);
  if negb (Js.truthy item) then Ok []
  else
    content ←
      (if eqb type "def"
       then Ok (Js.or (Js.get_opt item "lumiaDef") (VStr []))
       else Ok (VStr []));
    Script.call_trim content.

(** The macros of the out-of-character reminder.  [chat] is the length of
    [context.chat], or [None] without a chat; [interval] is
    [settings.lumiaOOCInterval], a number or [None] for null (and for the
    NaN of a failed [parseInt], which is falsy as well).  Division and
    ceiling are the exact ones: on counts and intervals below 2^53 the
    floating-point quotient has the same ceiling. *)
Definition oocReminder : jsstring :=
  "**OOC Commentary Reminder!** The Gods' want me to speak up to the Human now in the out-of-context comments! Perfect, I've got a lot I want to say and I want them to hear my voice loud and clear!".

Definition lumiaOOCTrigger (chat : option nat) (interval : option Z) : jsstring :=
  match chat with
  | None => []
  | Some len =>
      match interval with
      | None => []
      | Some interval =>
          if (interval =? 0) || (interval <=? 0) then []
          else if Z.rem (Z.of_nat len) interval =? 0 then oocReminder
          else []
      end
  end.

(** [Math.ceil(messageCount / interval) * interval - messageCount]. *)
Definition messagesUntil (messageCount interval : Z) : Z :=
  - ((- messageCount) / interval) * interval - messageCount.

Definition decimal (n : Z) : jsstring :=
  lit (DecimalString.NilZero.string_of_int (Z.to_int n)).

Definition lumiaNextOOC (chat : option nat) (interval : option Z) : jsstring :=
  match chat with
  | None => []
  | Some len =>
      match interval with
      | None => []
      | Some interval =>
          if (interval =? 0) || (interval <=? 0) then []
          else
            let until := messagesUntil (Z.of_nat len) interval in
            if until =? 0 then lit "OOC trigger active now!"
            else decimal until ++ " message"
                 ++ (if negb (until =? 1) then lit "s" else [])
                 ++ " until next OOC trigger"
      end
  end.

End Ui.

(** ** Definitions used to state further properties *)

Module More.
Import Str.

(** The item is converted as a Lumia item, or as a Loom item, by the loop
    over [inputData.items]. *)
Definition isLumiaItem (item : value) : bool :=
  Js.truthy (Js.or (Js.get_opt item "lumiaDefName") (Js.get_opt item "lumiaName")).

Definition isLoomItem (item : value) : bool :=
  negb (isLumiaItem item) && Js.truthy (Js.get_opt item "loomCategory").

(** The Loom item an entry stands for. *)
Definition loomOf (entry : value) : option Script.LoomItem :=
  match Props.entryText entry with
  | Some (content, comment) =>
      match Script.categoryMatch comment with
      | Some g =>
          if Script.isLoomCategory (trim g)
          then
            match Script.loomNameMatch comment with
            | Some name => Some (Script.mkLoom (trim name) (trim content) (trim g))
            | None => None
            end
          else None
      | None => None
      end
  | None => None
  end.

(** The fragments of one name, in the order of the entries, and the item
    they build. *)
Definition fragmentsOf (name : jsstring) (entries : list value)
  : list (option Script.kind * jsstring) :=
  omap (fun e =>
          match Props.fragmentOf e with
          | Some (n, t, c) => if eqb n name then Some (t, c) else None
          | None => None
          end) entries.

Definition build (name : jsstring) (frs : list (option Script.kind * jsstring))
  : Script.Lumia :=
  foldl (fun l f => Script.applyEntry (fst f) (snd f) l) (Script.newLumia name) frs.

(** A field of the extension's item as the converter keeps it: an empty
    text becomes null. *)
Definition kept (o : option jsstring) : option jsstring :=
  if Script.unset o then None else o.

Definition canonical_of (l : Legacy.Lumia) : Script.Lumia :=
  Script.mkLumia (Legacy.lumiaDefName l) (kept (Legacy.lumia_img l))
    (kept (Legacy.lumia_personality l)) (kept (Legacy.lumia_behavior l))
    (kept (Legacy.lumiaDef l)) (kept (Legacy.defAuthor l)) Script.SHE_HER 1.

(** The name of a fragment for the extension's [processWorldBook], which
    knows no Loom headings. *)
Definition legacyName (entry : value) : option jsstring :=
  match Props.entryText entry with
  | Some (_, comment) => trim <$> Re.nameMatch comment
  | None => None
  end.

(** The one-pass form of [escapeHtml]. *)
Definition escapeChar (c : ascii) : jsstring :=
  if eqc c "&" then "&amp;"
  else if eqc c "<" then "&lt;"
  else if eqc c ">" then "&gt;"
  else if eqc c "034" then "&quot;"
  else if eqc c "'" then "&#039;"
  else [c].

(** The references of a selection that resolve to an item. *)
Definition nonNullish (v : value) : bool :=
  match v with VUndef | VNull => false | _ => true end.

(** The characters that end an attribute value or open a tag. *)
Definition special (c : ascii) : bool :=
  eqc c "<" || eqc c ">" || eqc c "034" || eqc c "'".

(** [a || b || null] is null or truthy. *)
Definition settled (v : value) : Prop := v = VNull \/ Js.truthy v = true.

(** An old internal pack with a Lumia item, an item of neither kind and a
    Loom item. *)
Definition exampleOldPack : value :=
  VObj [(lit "name", VStr "Old");
        (lit "items",
          VArr [VObj [(lit "lumiaDefName", VStr "Aria")];
                VObj [(lit "note", VStr "neither")];
                VObj [(lit "loomName", VStr "Gothic");
                      (lit "loomCategory", VStr "Narrative Style")]])].

(** The object of a name in the map, or the fresh one when the map has
    none. *)
Definition lookupOrNew (n : jsstring) (m : Script.lumiaMap) : Script.Lumia :=
  default (Script.newLumia n) (Script.map_get n m).

(** [i.lumiaDefName === name]. *)
Definition hasName (name : jsstring) (item : value) : bool :=
  Js.is_str name (Js.get_opt item "lumiaDefName").

(** [s.packName === p]. *)
Definition refersTo (p : jsstring) (r : value) : bool :=
  Js.is_str p (Js.get_opt r "packName").

(** [s.packName === p && s.itemName === i]. *)
Definition matches (p i : jsstring) (r : value) : bool :=
  Js.is_str p (Js.get_opt r "packName") && Js.is_str i (Js.get_opt r "itemName").

(** The fragment an entry stands for in the extension's
    [processWorldBook]: name, type and raw content. *)
Definition legacyFragmentOf (entry : value)
  : option (jsstring * option Script.kind * jsstring) :=
  match Props.entryText entry with
  | Some (content, comment) =>
      match Re.nameMatch comment with
      | Some g =>
          Some (trim g,
                Legacy.entryType (Js.get_opt entry "outletName") comment,
                content)
      | None => None
      end
  | None => None
  end.

(** The fragments of one name and the item they build, for the
    extension. *)
Definition legacyFragmentsOf (name : jsstring) (entries : list value)
  : list (option Script.kind * jsstring) :=
  omap (fun e =>
          match legacyFragmentOf e with
          | Some (n, t, c) => if eqb n name then Some (t, c) else None
          | None => None
          end) entries.

Definition legacyBuild (name : jsstring) (frs : list (option Script.kind * jsstring))
  : Legacy.Lumia :=
  foldl (fun l f => Legacy.applyEntry (fst f) (snd f) l) (Legacy.newLumia name) frs.

(** Every binding of the extension's map carries its key as its name. *)
Definition legacyNamed (m : list (jsstring * Legacy.Lumia)) : Prop :=
  Forall (fun kl => Legacy.lumiaDefName (snd kl) = fst kl) m.

Definition legacyLookup (n : jsstring) (m : list (jsstring * Legacy.Lumia))
  : Legacy.Lumia :=
  default (Legacy.newLumia n) (Legacy.map_get n m).

(** Two objects with the same properties, whatever the order of their
    keys. *)
Definition sameFields (a b : value) : Prop :=
  forall k, Js.get_opt a k = Js.get_opt b k.

(** The item of the extension has a name that is not empty. *)
Definition hasLumiaName (l : Legacy.Lumia) : bool :=
  negb (eqb (Legacy.lumiaDefName l) []).

(** A pack as the extension stores it:
    [{ name, items: library, url }]. *)
Definition extensionPack (name : jsstring) (library : list Legacy.Lumia)
    (url : jsstring) : value :=
  VObj [ (lit "name", VStr name);
         (lit "items", VArr (map Legacy.lumia_value library));
         (lit "url", VStr url) ].

(** A tag without a value, and the texts on which the two copies of
    [extractMetadata] read the same tags: no line terminator and no tag
    without a value. *)
Definition emptyTag (opening : jsstring) : jsstring := opening ++ "]".

Definition plainTags (content : jsstring) : bool :=
  forallb (fun c => negb (is_lt c)) content
  && negb (includes (emptyTag Props.IMG) content)
  && negb (includes (emptyTag Props.AUTHOR) content).

(** Settings with one pack and references into it and into a pack that
    is not there. *)
Definition examplePacks : Legacy.Settings :=
  Legacy.mkSettings
    (<[lit "Book" :=
         VObj [ (lit "name", VStr "Book");
                (lit "items", VArr Props.exampleItems);
                (lit "url", VStr []) ]]> ∅)
    (Ui.ref "Book" "Aria")
    (VArr [Ui.ref "Book" "Bo"; Ui.ref "Gone" "Cy"])
    (VArr [])
    VNull None None None.

(** [p] occurs in [s]. *)
Definition hasSubstring (p s : jsstring) : Prop := exists a b, s = a ++ p ++ b.

(** A type is chosen for an entry by its outlet identifier or by its
    keyword, looked for in the comment without regard to letter case. *)
Definition chosenBy (outlet keyword : jsstring) (outletName : value)
    (comment : jsstring) : Prop :=
  outletName = VStr outlet \/ hasSubstring keyword (toLowerCase comment).





End More.

(** ** Properties *)

Section Strings.
Import Str.

Lemma eqb_eq (a b : jsstring) : eqb a b = true <-> a = b.
Proof. unfold eqb. apply bool_decide_eq_true. Qed.

Lemma eqb_refl (a : jsstring) : eqb a a = true.
Proof. by apply eqb_eq. Qed.

Lemma eqb_neq (a b : jsstring) : eqb a b = false <-> a <> b.
Proof. unfold eqb. apply bool_decide_eq_false. Qed.

Lemma eqc_eq a b : eqc a b = true <-> a = b.
Proof. unfold eqc. apply bool_decide_eq_true. Qed.

Lemma eqc_refl a : eqc a a = true.
Proof. by apply eqc_eq. Qed.

Lemma strip_prefix_spec p s r : strip_prefix p s = Some r <-> s = p ++ r.
Proof.
  revert s. induction p as [|a p IH]; intros s; cbn [strip_prefix app].
  - split; [by intros [= ->] | by intros ->].
  - destruct s as [|b s]; [done|]. destruct (eqc a b) eqn:E.
    + apply eqc_eq in E as ->. rewrite IH. split; [by intros -> | by intros [= ->]].
    + split; [done|]. intros [= -> _]. by rewrite eqc_refl in E.
Qed.

Lemma strip_prefix_app p r : strip_prefix p (p ++ r) = Some r.
Proof. by apply strip_prefix_spec. Qed.

Lemma search_first {R} (m : jsstring -> option R) pre t r :
  Props.noneBefore m pre t = true -> m t = Some r ->
  search m (pre ++ t) = Some (pre, r).
Proof.
  intros N M. induction pre as [|c pre IH]; cbn [app].
  - destruct t; cbn [search]; by rewrite M.
  - cbn [Props.noneBefore app] in N. cbn [search].
    destruct (m (c :: pre ++ t)); [done|]. by rewrite IH.
Qed.

Lemma search_none {R} (m : jsstring -> option R) s :
  (forall p q, s = p ++ q -> m q = None) -> search m s = None.
Proof.
  induction s as [|c s IH]; intros H; cbn [search].
  - by rewrite (H [] []).
  - rewrite (H [] (c :: s)) by done. rewrite IH; [done|].
    intros p q ->. by apply (H (c :: p)).
Qed.

Lemma noneBefore_intro {R} (m : jsstring -> option R) pre t :
  (forall p q, pre = p ++ q -> q <> [] -> m (q ++ t) = None) ->
  Props.noneBefore m pre t = true.
Proof.
  induction pre as [|c pre IH]; intros H; cbn [Props.noneBefore]; [done|].
  change (c :: pre ++ t) with ((c :: pre) ++ t).
  rewrite (H [] (c :: pre)) by done. apply IH. intros p q -> Hq.
  by apply (H (c :: p)).
Qed.

Lemma noneBefore_elim {R} (m : jsstring -> option R) pre t :
  Props.noneBefore m pre t = true ->
  forall p q, pre = p ++ q -> q <> [] -> m (q ++ t) = None.
Proof.
  induction pre as [|c pre IH]; intros H p q E Hq.
  - by destruct p, q.
  - cbn [Props.noneBefore] in H.
    destruct (m ((c :: pre) ++ t)) eqn:M; [done|].
    destruct p as [|c' p]; cbn [app] in E.
    + by subst q.
    + injection E as -> ->. by eapply IH.
Qed.

(** *** Dropping white space at the two ends *)

Lemma dropWhile_app f x y :
  dropWhile f (x ++ y) = if forallb f x then dropWhile f y else dropWhile f x ++ y.
Proof.
  induction x as [|c x IH]; cbn [app dropWhile forallb]; [done|].
  destruct (f c); cbn [andb]; [apply IH | done].
Qed.

Lemma dropWhile_all f x : forallb f x = true -> dropWhile f x = [].
Proof.
  induction x as [|c x IH]; cbn [dropWhile forallb]; [done|].
  destruct (f c); [apply IH | done].
Qed.

Lemma dropWhile_some f x : forallb f x = false -> forallb f (dropWhile f x) = false.
Proof.
  induction x as [|c x IH]; cbn [dropWhile forallb]; [done|].
  destruct (f c) eqn:E; [apply IH|]. intros _. cbn [forallb]. by rewrite E.
Qed.

Lemma dropWhile_idem f x : dropWhile f (dropWhile f x) = dropWhile f x.
Proof.
  induction x as [|c x IH]; cbn [dropWhile]; [done|].
  destruct (f c) eqn:E; [apply IH|]. cbn [dropWhile]. by rewrite E.
Qed.

Lemma forallb_rev {A} (f : A -> bool) x : forallb f (rev x) = forallb f x.
Proof.
  induction x as [|c x IH]; [done|]. cbn [rev forallb].
  rewrite forallb_app, IH. cbn [forallb]. by destruct (f c), (forallb f x).
Qed.

Lemma trimStart_app x y :
  trimStart (x ++ y) = if forallb is_ws x then trimStart y else trimStart x ++ y.
Proof. apply dropWhile_app. Qed.

Lemma trimEnd_app x y :
  trimEnd (x ++ y) = if forallb is_ws y then trimEnd x else x ++ trimEnd y.
Proof.
  unfold trimEnd. rewrite rev_app_distr, dropWhile_app, forallb_rev.
  destruct (forallb is_ws y); [done|]. by rewrite rev_app_distr, rev_involutive.
Qed.

Lemma trimEnd_all x : forallb is_ws x = true -> trimEnd x = [].
Proof.
  intros H. unfold trimEnd. rewrite dropWhile_all; [done|]. by rewrite forallb_rev.
Qed.

Lemma trimEnd_some x : forallb is_ws x = false -> forallb is_ws (trimEnd x) = false.
Proof.
  intros H. unfold trimEnd. rewrite forallb_rev. apply dropWhile_some.
  by rewrite forallb_rev.
Qed.

Lemma trimEnd_idem x : trimEnd (trimEnd x) = trimEnd x.
Proof. unfold trimEnd. by rewrite rev_involutive, dropWhile_idem. Qed.

Lemma trimEnd_cons c x : is_ws c = false -> trimEnd (c :: x) = c :: trimEnd x.
Proof.
  intros H. change (c :: x) with ([c] ++ x). rewrite trimEnd_app.
  destruct (forallb is_ws x) eqn:E; [|done].
  rewrite (trimEnd_all x E). unfold trimEnd. cbn. by rewrite H.
Qed.

Lemma trimEnd_snoc x c : is_ws c = false -> trimEnd (x ++ [c]) = x ++ [c].
Proof.
  intros H. rewrite trimEnd_app. cbn [forallb]. rewrite H. cbn [andb].
  unfold trimEnd. cbn. by rewrite H.
Qed.

Lemma trim_comm x : trimStart (trimEnd x) = trimEnd (trimStart x).
Proof.
  induction x as [|c x IH]; [done|]. destruct (is_ws c) eqn:E.
  - change (c :: x) with ([c] ++ x). rewrite trimEnd_app.
    unfold trimStart at 2. cbn [app dropWhile]. rewrite E. fold (trimStart x).
    destruct (forallb is_ws x) eqn:A.
    + rewrite <- IH, (trimEnd_all x A). unfold trimEnd, trimStart. cbn. by rewrite E.
    + rewrite <- IH. unfold trimStart. cbn [app dropWhile]. by rewrite E.
  - rewrite (trimEnd_cons c x E). unfold trimStart. cbn [dropWhile]. rewrite E.
    by rewrite (trimEnd_cons c x E).
Qed.

(** Trimming after the removal of a piece that neither starts nor ends
    with white space. *)
Lemma trim_around x c mid c' y :
  is_ws c = false -> is_ws c' = false ->
  trim (x ++ (c :: mid ++ [c']) ++ y) = trimStart x ++ (c :: mid ++ [c']) ++ trimEnd y.
Proof.
  intros Hc Hc'. unfold trim. rewrite trimStart_app.
  assert (S : trimStart ((c :: mid ++ [c']) ++ y) = (c :: mid ++ [c']) ++ y).
  { unfold trimStart. cbn [app dropWhile]. by rewrite Hc. }
  assert (E : (if forallb is_ws x then trimStart ((c :: mid ++ [c']) ++ y)
               else trimStart x ++ (c :: mid ++ [c']) ++ y)
              = trimStart x ++ (c :: mid ++ [c']) ++ y).
  { destruct (forallb is_ws x) eqn:A; [|done].
    rewrite S. unfold trimStart. by rewrite (dropWhile_all _ _ A). }
  rewrite E. rewrite !app_assoc. rewrite trimEnd_app.
  rewrite <- !app_assoc.
  assert (T : trimEnd (trimStart x ++ c :: mid ++ [c']) = trimStart x ++ c :: mid ++ [c']).
  { change (c :: mid ++ [c']) with ((c :: mid) ++ [c']). rewrite app_assoc.
    by apply trimEnd_snoc. }
  destruct (forallb is_ws y) eqn:B.
  - rewrite (trimEnd_all y B), app_nil_r. cbn [app]. apply T.
  - done.
Qed.

Lemma trim_joined x y : trim (trimStart x ++ trimEnd y) = trim (x ++ y).
Proof.
  unfold trim. rewrite !trimStart_app.
  destruct (forallb is_ws x) eqn:A.
  - unfold trimStart at 1 2. rewrite (dropWhile_all _ _ A). cbn [forallb app].
    fold (trimStart (trimEnd y)). by rewrite trim_comm, trimEnd_idem.
  - unfold trimStart at 1. rewrite (dropWhile_some _ _ A).
    unfold trimStart at 1. rewrite dropWhile_idem. fold (trimStart x).
    rewrite !trimEnd_app. destruct (forallb is_ws y) eqn:B.
    + by rewrite (trimEnd_all y B).
    + by rewrite (trimEnd_some y B), trimEnd_idem.
Qed.

End Strings.

Section Tags.
Import Str Script Props.

Lemma span_spec f s a b : span f s = (a, b) -> s = a ++ b /\ forallb f a = true.
Proof.
  revert a b. induction s as [|c s IH]; intros a b; cbn [span].
  - by intros [= <- <-].
  - destruct (f c) eqn:E.
    + destruct (span f s) as [a' b'] eqn:S. intros [= <- <-].
      destruct (IH a' b' eq_refl) as [-> H]. cbn [forallb app]. by rewrite E.
    + by intros [= <- <-].
Qed.

Lemma span_app f v c rest :
  forallb f v = true -> f c = false -> span f (v ++ c :: rest) = (v, c :: rest).
Proof.
  intros V C. induction v as [|x v IH]; cbn [app span].
  - by rewrite C.
  - cbn [forallb] in V. apply andb_true_iff in V as [-> V]. by rewrite IH.
Qed.

Lemma tagValue_spec v :
  tagValue v = true <->
  v <> [] /\ forallb (fun c => negb (eqc c "]")) v = true.
Proof.
  unfold tagValue. rewrite andb_true_iff, negb_true_iff. by rewrite eqb_neq.
Qed.

Lemma tag_at_match o v rest :
  tagValue v = true -> tag_at o (tagText o v ++ rest) = Some (tagText o v, v).
Proof.
  intros [N V]%tagValue_spec. unfold tag_at, tagText.
  rewrite <- !app_assoc, strip_prefix_app.
  change (lit "]" ++ rest) with ("]"%char :: rest).
  rewrite (span_app _ v "]" rest V) by done.
  destruct v as [|c v]; [done|]. by rewrite eqc_refl.
Qed.

Lemma tag_at_starts o t r : tag_at o t = Some r -> startsTag o t.
Proof.
  unfold tag_at. destruct (strip_prefix o t) as [s|] eqn:P; [|done].
  apply strip_prefix_spec in P as ->.
  destruct (span _ s) as [[|c v] [|c' post]] eqn:S; try done.
  destruct (eqc c' "]") eqn:E; [|done]. intros _.
  apply eqc_eq in E as ->. apply span_spec in S as [-> V].
  exists (c :: v), post. split; [by apply tagValue_spec|].
  unfold tagText. by rewrite <- !app_assoc.
Qed.

Lemma search_noTag o s : noTag o s -> search (tag_at o) s = None.
Proof.
  intros H. apply search_none. intros p q E.
  destruct (tag_at o q) eqn:T; [|done]. destruct (H p q E). by eapply tag_at_starts.
Qed.

Lemma search_tag o x v X :
  tagValue v = true -> firstTag o x (tagText o v ++ X) ->
  search (tag_at o) (x ++ tagText o v ++ X) = Some (x, (tagText o v, v)).
Proof.
  intros V F. apply search_first; [|by apply tag_at_match].
  apply noneBefore_intro. intros p q E Hq.
  destruct (tag_at o (q ++ tagText o v ++ X)) eqn:T; [|done].
  destruct (F p q E Hq). by eapply tag_at_starts.
Qed.

(** An occurrence of [T] that starts before another occurrence of [T]
    ends inside it. *)
Lemma occurrence_shift (T q y r : jsstring) :
  q ++ T ++ y = T ++ r -> exists q', q ++ T = T ++ q'.
Proof.
  intros E. exists (drop (length T) (q ++ T)).
  rewrite <- (take_drop (length T) (q ++ T)) at 1. f_equal.
  assert (H : take (length T) ((q ++ T) ++ y) = take (length T) (T ++ r)).
  { by rewrite <- app_assoc, E. }
  rewrite take_app_le in H by (rewrite length_app; lia).
  rewrite H. by rewrite take_app_length.
Qed.

Lemma replaceFirst_tag o x v y X :
  tagValue v = true -> firstTag o x (tagText o v ++ X) ->
  replaceFirst (tagText o v) (x ++ tagText o v ++ y) = x ++ y.
Proof.
  intros V F. unfold replaceFirst.
  rewrite (search_first (strip_prefix (tagText o v)) x (tagText o v ++ y) y);
    [done | | apply strip_prefix_app].
  apply noneBefore_intro. intros p q E Hq.
  destruct (strip_prefix (tagText o v) (q ++ tagText o v ++ y)) as [r|] eqn:S; [|done].
  apply strip_prefix_spec in S. destruct (occurrence_shift _ _ _ _ S) as [q' Q].
  destruct (F p q E Hq). exists v, (q' ++ X). split; [done|].
  by rewrite !app_assoc, Q.
Qed.

Lemma dropWhile_suffix f x : exists p, x = p ++ dropWhile f x.
Proof.
  induction x as [|c x [p IH]]; [by exists []|]. cbn [dropWhile].
  destruct (f c); [|by exists []]. exists (c :: p). cbn [app]. by rewrite <- IH.
Qed.

Lemma firstTag_suffix o p x t : firstTag o (p ++ x) t -> firstTag o x t.
Proof.
  intros F p' q -> Hq. apply (F (p ++ p') q); [by rewrite app_assoc | done].
Qed.

(** Removing the first tag from the trimmed text around it, and trimming
    again, gives the trimmed text without the tag. *)
Lemma remove_tag o c0 o' x v y X :
  o = c0 :: o' -> is_ws c0 = false ->
  tagValue v = true -> firstTag o x (tagText o v ++ X) ->
  trim (replaceFirst (tagText o v) (trim (x ++ tagText o v ++ y))) = trim (x ++ y).
Proof.
  intros -> C V F.
  assert (T : tagText (c0 :: o') v = c0 :: (o' ++ v) ++ ["]"%char]).
  { unfold tagText. cbn [app]. by rewrite <- app_assoc. }
  rewrite T at 2. rewrite trim_around by done. rewrite <- T.
  rewrite (replaceFirst_tag (c0 :: o') (trimStart x) v (trimEnd y) X V).
  - apply trim_joined.
  - destruct (dropWhile_suffix is_ws x) as [p P]. fold (trimStart x) in P.
    rewrite P in F. by eapply firstTag_suffix.
Qed.

(** C7, as amended.  On every text that has no tag, one kind of tag, or
    both kinds with first occurrences that lie apart, extractMetadata
    returns what the specification says: the trimmed values of the first
    tags, null for a missing kind, and the text without these first
    occurrences, trimmed, with every further occurrence left in place. *)
Theorem extractMetadata_first_occurrences (c : jsstring) (m : Metadata) :
  extracts c m -> extractMetadata c = m.
Proof.
  intros H. unfold extractMetadata, imgMatch, authMatch.
  change (lit "[lumia_img=") with IMG. change (lit "[lumia_author=") with AUTHOR.
  destruct H as [c NI NA | pre v post V F NA | pre w post W F NI
                | a w b v d W V FA FI | a v b w d V W FI FA FA'].
  - by rewrite (search_noTag IMG c NI), (search_noTag AUTHOR c NA).
  - rewrite (search_tag IMG pre v post V F), (search_noTag AUTHOR _ NA).
    cbn [fmap option_fmap option_map snd].
    by rewrite (replaceFirst_tag IMG pre v post post V F).
  - rewrite (search_noTag IMG _ NI), (search_tag AUTHOR pre w post W F).
    cbn [fmap option_fmap option_map snd].
    by rewrite (replaceFirst_tag AUTHOR pre w post post W F).
  - rewrite (search_tag AUTHOR a w _ W FA).
    replace (a ++ tagText AUTHOR w ++ b ++ tagText IMG v ++ d)
      with ((a ++ tagText AUTHOR w ++ b) ++ tagText IMG v ++ d)
      by (by rewrite <- !app_assoc).
    rewrite (search_tag IMG _ v d V FI).
    cbn [fmap option_fmap option_map snd].
    rewrite (replaceFirst_tag IMG _ v d d V FI).
    rewrite <- !app_assoc.
    by rewrite (remove_tag AUTHOR "[" "lumia_author=" a w (b ++ d) _ eq_refl eq_refl W FA).
  - rewrite (search_tag IMG a v _ V FI).
    cbn [fmap option_fmap option_map snd].
    rewrite (replaceFirst_tag IMG a v _ _ V FI).
    replace (a ++ tagText IMG v ++ b ++ tagText AUTHOR w ++ d)
      with ((a ++ tagText IMG v ++ b) ++ tagText AUTHOR w ++ d)
      by (by rewrite <- !app_assoc).
    rewrite (search_tag AUTHOR _ w d W FA).
    cbn [fmap option_fmap option_map snd].
    replace (a ++ b ++ tagText AUTHOR w ++ d)
      with ((a ++ b) ++ tagText AUTHOR w ++ d) by (by rewrite <- !app_assoc).
    rewrite (remove_tag AUTHOR "[" "lumia_author=" (a ++ b) w d d eq_refl eq_refl W FA').
    by rewrite <- app_assoc.
Qed.

End Tags.

Section TagExamples.
Import Str Script Props.

Lemma firstTag_check o pre t :
  noneBefore (tag_at o) pre t = true -> firstTag o pre t.
Proof.
  intros N p q E Hq (v & rest & V & T).
  pose proof (noneBefore_elim _ _ _ N p q E Hq) as M.
  rewrite T in M. by rewrite tag_at_match in M.
Qed.

(** C7, as stated, fails: the first author tag lies inside the image
    tag and goes with it, and then the next author tag, a further
    occurrence that should stay, is removed as well: nothing is left of
    the text. *)
Lemma further_occurrence_counterexample :
  lit "[lumia_img=a[lumia_author=b] [lumia_author=b]" =
    tagText IMG "a[lumia_author=b" ++ " " ++ tagText AUTHOR "b" /\
  extractMetadata "[lumia_img=a[lumia_author=b] [lumia_author=b]" =
    mkMetadata (Some (lit "a[lumia_author=b")) (Some (lit "b")) [] /\
  includes (tagText AUTHOR "b")
    (content (extractMetadata "[lumia_img=a[lumia_author=b] [lumia_author=b]")) = false.
Proof. by vm_compute. Qed.

Lemma extractMetadata_first_occurrences_witness :
  extractMetadata
    ("Shy. " ++ tagText IMG "http://x/a.png" ++ " Reads. " ++
     tagText AUTHOR " Bob " ++ " [lumia_img=http://x/b.png] ") =
  mkMetadata (Some (trim "http://x/a.png")) (Some (trim " Bob "))
    (trim ("Shy. " ++ " Reads. " ++ " [lumia_img=http://x/b.png] ")).
Proof.
  apply extractMetadata_first_occurrences.
  apply (extracts_image_author "Shy. " "http://x/a.png" " Reads. " " Bob "
           " [lumia_img=http://x/b.png] ").
  - reflexivity.
  - reflexivity.
  - apply firstTag_check. reflexivity.
  - apply firstTag_check. reflexivity.
  - apply firstTag_check. reflexivity.
Defined.

End TagExamples.

Section Coverage.
Import Str Script Props.

Lemma search_spec {R} (m : jsstring -> option R) s pre r :
  search m s = Some (pre, r) ->
  exists t, s = pre ++ t /\ m t = Some r /\ noneBefore m pre t = true.
Proof.
  revert pre. induction s as [|c s IH]; intros pre; cbn [search].
  - destruct (m []) eqn:M; [|done]. intros [= <- <-]. by exists [].
  - destruct (m (c :: s)) eqn:M.
    + intros [= <- <-]. by exists (c :: s).
    + destruct (search m s) as [[p r']|] eqn:S; [|done]. intros [= <- <-].
      destruct (IH p eq_refl) as (t & -> & Mt & N). exists t.
      split; [done|]. split; [done|]. cbn [noneBefore app]. by rewrite M.
Qed.

Lemma search_None {R} (m : jsstring -> option R) s :
  search m s = None -> forall p q, s = p ++ q -> m q = None.
Proof.
  induction s as [|c s IH]; cbn [search].
  - destruct (m []) eqn:M; [done|]. intros _ p q E.
    symmetry in E. apply app_eq_nil in E as [-> ->]. done.
  - destruct (m (c :: s)) eqn:M; [done|].
    destruct (search m s) as [[]|] eqn:S; [done|]. intros _ [|c' p] q E.
    + cbn [app] in E. by subst q.
    + cbn [app] in E. injection E as -> ->. by apply (IH eq_refl p).
Qed.

Lemma tag_at_spec o t whole v :
  tag_at o t = Some (whole, v) ->
  tagValue v = true /\ whole = tagText o v /\ exists post, t = whole ++ post.
Proof.
  unfold tag_at. destruct (strip_prefix o t) as [s|] eqn:P; [|done].
  apply strip_prefix_spec in P as ->.
  destruct (span _ s) as [[|c x] [|c' post]] eqn:S; try done.
  destruct (eqc c' "]") eqn:E; [|done]. intros [= <- <-].
  apply eqc_eq in E as ->. apply span_spec in S as [-> V].
  split; [by apply tagValue_spec|]. split; [done|]. exists post.
  rewrite <- !app_assoc. cbn [app]. by rewrite <- app_assoc.
Qed.

(** A text either has no tag of a kind or splits at its first tag of that
    kind. *)
Lemma first_tag_cases o c :
  noTag o c \/
  exists pre v post,
    c = pre ++ tagText o v ++ post /\ tagValue v = true /\
    firstTag o pre (tagText o v ++ post).
Proof.
  destruct (search (tag_at o) c) as [[pre [whole v]]|] eqn:S.
  - right. apply search_spec in S as (t & -> & T & N).
    apply tag_at_spec in T as (V & -> & post & ->).
    exists pre, v, post. split; [done|]. split; [done|]. by apply firstTag_check.
  - left. intros p q E (v & rest & V & ->).
    pose proof (search_None _ _ S p _ E) as T. by rewrite tag_at_match in T.
Qed.

(** The specification covers every text that has tags of at most one
    kind. *)
Lemma extracts_one_kind c :
  noTag AUTHOR c \/ noTag IMG c -> exists m, extracts c m.
Proof.
  intros [NA|NI].
  - destruct (first_tag_cases IMG c) as [NI|(pre & v & post & -> & V & F)].
    + eexists. by apply extracts_none.
    + eexists. by apply extracts_image.
  - destruct (first_tag_cases AUTHOR c) as [NA|(pre & w & post & -> & W & F)].
    + eexists. by apply extracts_none.
    + eexists. by apply extracts_author.
Qed.

End Coverage.

Section MapFacts.
Import Str Script.

Lemma map_get_set_eq name l m : map_get name (map_set name l m) = Some l.
Proof.
  induction m as [|[k l'] m IH]; simpl.
  - by rewrite eqb_refl.
  - destruct (eqb name k) eqn:E; simpl; rewrite E; auto.
Qed.

Lemma map_set_set name l l' m :
  map_set name l (map_set name l' m) = map_set name l m.
Proof.
  induction m as [|[k l0] m IH]; simpl.
  - by rewrite eqb_refl.
  - destruct (eqb name k) eqn:E; simpl; rewrite E; auto.
    by rewrite IH.
Qed.

Lemma map_get_None name (m : lumiaMap) :
  map_get name m = None <-> name ∉ map fst m.
Proof.
  induction m as [|[k l] m IH]; simpl.
  - split; [intros _; apply not_elem_of_nil | done].
  - destruct (eqb name k) eqn:E.
    + apply eqb_eq in E as ->. split; [done|]. intros H. destruct H. left.
    + apply eqb_neq in E. rewrite IH, not_elem_of_cons. tauto.
Qed.

Lemma map_set_keys name l (m : lumiaMap) :
  map fst (map_set name l m) =
  if bool_decide (name ∈ map fst m) then map fst m else map fst m ++ [name].
Proof.
  induction m as [|[k l'] m IH].
  - done.
  - cbn [map_set]. destruct (eqb name k) eqn:E.
    + apply eqb_eq in E as ->. cbn [map fst].
      rewrite bool_decide_eq_true_2; [done | left].
    + apply eqb_neq in E. cbn [map fst]. rewrite IH.
      destruct (decide (name ∈ map fst m)) as [H|H].
      * rewrite !bool_decide_eq_true_2; [done | by right | done].
      * rewrite !bool_decide_eq_false_2; [done | | done].
        rewrite not_elem_of_cons. tauto.
Qed.

End MapFacts.

Section LoopFacts.
Import Str Script Props.

Lemma step_fragment m looms e n t c :
  fragmentOf e = Some (n, t, c) ->
  step (m, looms) e =
  Ok (map_set n (applyEntry t c (default (newLumia n) (map_get n m))) m, looms).
Proof.
  unfold fragmentOf, entryText, loomHeading. intros H.
  destruct e as [| | | | |l|fs]; try discriminate.
  unfold step. cbn [Js.get mbind result_bind].
  destruct (Js.lookup "content" fs) as [| | | |[|ch cs]| |] eqn:Ec; try discriminate.
  cbn [Js.get_opt] in H.
  destruct (Js.or (Js.lookup "comment" fs) (VStr [])) as [| | | |s| |] eqn:Ecm;
    try discriminate.
  cbn [call_trim mbind result_bind].
  destruct (categoryMatch (trim s)) as [g|] eqn:Ecat.
  - destruct (isLoomCategory (trim g)); [discriminate|].
    destruct (Re.nameMatch (trim s)) as [g'|]; [|discriminate].
    injection H as <- <- <-.
    destruct (map_get (trim g') m) eqn:Eg; cbn [default]; [done|].
    by rewrite map_set_set.
  - destruct (Re.nameMatch (trim s)) as [g'|]; [|discriminate].
    injection H as <- <- <-.
    destruct (map_get (trim g') m) eqn:Eg; cbn [default]; [done|].
    by rewrite map_set_set.
Qed.

Lemma step_no_fragment m looms e :
  rawEntry e = true -> fragmentOf e = None ->
  exists looms', step (m, looms) e = Ok (m, looms').
Proof.
  unfold rawEntry, commentOf, fragmentOf, entryText, loomHeading. intros R H.
  destruct e as [| | | | |l|fs]; try discriminate; try by eexists.
  unfold step. cbn [Js.get mbind result_bind].
  destruct (Js.or (Js.lookup "comment" fs) (VStr [])) as [| | | |s| |] eqn:Ecm;
    try discriminate.
  destruct (Js.lookup "content" fs) as [| | | |[|ch cs]| |] eqn:Ec; eauto.
  cbn [call_trim mbind result_bind].
  destruct (categoryMatch (trim s)) as [g|] eqn:Ecat.
  - destruct (isLoomCategory (trim g)).
    + destruct (loomNameMatch (trim s)); eauto.
    + destruct (Re.nameMatch (trim s)); [discriminate | eauto].
  - destruct (Re.nameMatch (trim s)); [discriminate | eauto].
Qed.

(** An entry without a parenthesized name that is not a Loom heading
    leaves the state of the loop as it is. *)
Lemma step_dropped st e cm :
  commentOf e = Some cm -> Re.nameMatch cm = None -> loomNameMatch cm = None ->
  step st e = Ok st.
Proof.
  unfold commentOf. intros R N L. destruct st as [m looms].
  destruct e as [| | | | |l|fs]; try discriminate; try done.
  unfold step. cbn [Js.get mbind result_bind].
  destruct (Js.or (Js.lookup "comment" fs) (VStr [])) as [| | | |s| |] eqn:Ecm;
    try discriminate.
  injection R as <-.
  destruct (Js.lookup "content" fs) as [| | | |[|ch cs]| |] eqn:Ec; try done.
  cbn [call_trim mbind result_bind]. rewrite N, L.
  destruct (categoryMatch (trim s)) as [g|]; [|done].
  by destruct (isLoomCategory (trim g)).
Qed.

Lemma loop_app l1 l2 st :
  loop (l1 ++ l2) st = st' ← loop l1 st; loop l2 st'.
Proof.
  revert st. induction l1 as [|e l1 IH]; intros st; [done|].
  cbn [app loop]. destruct (step st e) as [st'|err]; [|done].
  cbn [mbind result_bind]. apply IH.
Qed.

Lemma search_some {R} (m : jsstring -> option R) p q r :
  m q = Some r -> search m (p ++ q) <> None.
Proof.
  intros M. induction p as [|c p IH]; cbn [app].
  - destruct q; cbn [search]; by rewrite M.
  - cbn [search]. destruct (m (c :: p ++ q)); [done|].
    destruct (search m (p ++ q)) as [[]|]; done.
Qed.

Lemma lazy_dots_closing x tail :
  forallb (fun c => negb (is_lt c)) x = true ->
  lazy_dots (starts_with ")") (x ++ ")"%char :: tail) <> None.
Proof.
  induction x as [|c x IH]; intros H; cbn [app lazy_dots].
  - done.
  - cbn [forallb] in H. apply andb_true_iff in H as [Hc H].
    destruct (starts_with ")" (c :: x ++ ")"%char :: tail)); [done|].
    apply negb_true_iff in Hc. rewrite Hc.
    destruct (lazy_dots (starts_with ")") (x ++ ")"%char :: tail)) eqn:L; [done|].
    by destruct (IH H).
Qed.

Lemma trimEnd_suffix x : exists tail, x = trimEnd x ++ tail.
Proof.
  unfold trimEnd. destruct (dropWhile_suffix is_ws (rev x)) as [p P].
  exists (rev p). rewrite <- rev_app_distr, <- P. by rewrite rev_involutive.
Qed.

Lemma strip_loom_heading_spec s r :
  strip_loom_heading s = Some r -> exists h, s = h ++ r.
Proof.
  unfold strip_loom_heading.
  destruct (strip_prefix "Loom Utilities" s) eqn:A.
  { intros [= <-]. apply strip_prefix_spec in A. eauto. }
  destruct (strip_prefix "Retrofits" s) eqn:B.
  { intros [= <-]. apply strip_prefix_spec in B. eauto. }
  intros C%strip_prefix_spec. eauto.
Qed.

(** A comment that matches the Loom pattern has a parenthesized name. *)
Lemma loomNameMatch_nameMatch cm :
  Re.nameMatch cm = None -> loomNameMatch cm = None.
Proof.
  intros N. destruct (loomNameMatch cm) as [g|] eqn:L; [|done]. exfalso.
  unfold loomNameMatch in L.
  destruct (strip_loom_heading cm) as [r|] eqn:H; [|done].
  destruct (strip_prefix "(" (dropWhile is_ws r)) as [r1|] eqn:P; [|done].
  destruct (rev (trimEnd r1)) as [|c g'] eqn:T; [done|].
  destruct (eqc c ")") eqn:C; [|done]. apply eqc_eq in C as ->.
  destruct (eqb g' []) eqn:G; [done|]. cbn [negb andb] in L.
  destruct (forallb (fun x => negb (is_lt x)) g') eqn:F; [|done].
  apply strip_loom_heading_spec in H as [h ->].
  apply strip_prefix_spec in P.
  destruct (dropWhile_suffix is_ws r) as [w W]. rewrite P in W.
  destruct (trimEnd_suffix r1) as [tail E].
  assert (T' : trimEnd r1 = rev g' ++ [")"%char]).
  { rewrite <- (rev_involutive (trimEnd r1)), T. done. }
  rewrite T' in E. rewrite <- app_assoc in E. cbn [app] in E.
  assert (M : exists g, Re.name_at (lit "(" ++ r1) = Some g).
  { unfold Re.name_at. rewrite strip_prefix_app. rewrite E.
    destruct (rev g') as [|c x] eqn:R.
    { apply (f_equal (@rev ascii)) in R. rewrite rev_involutive in R. subst g'.
      by rewrite eqb_refl in G. }
    assert (F' : forallb (fun x => negb (is_lt x)) (c :: x) = true).
    { by rewrite <- R, forallb_rev. }
    cbn [forallb] in F'. apply andb_true_iff in F' as [Hc F'].
    apply negb_true_iff in Hc. cbn [app lazy_dots1]. rewrite Hc.
    destruct (lazy_dots (starts_with ")") (x ++ ")"%char :: tail)) eqn:Z; [eauto|].
    by destruct (lazy_dots_closing x tail F'). }
  destruct M as [g0 M].
  unfold Re.nameMatch in N.
  destruct (search Re.name_at (h ++ r)) as [[]|] eqn:S; [done|].
  apply (search_some Re.name_at (h ++ w) _ _ M). by rewrite <- app_assoc, <- W.
Qed.

End LoopFacts.

Section Names.
Import Str Script Props.

Lemma applyEntry_name t c l : lumiaName (applyEntry t c l) = lumiaName l.
Proof.
  destruct t as [[| |]|]; cbn [applyEntry]; try done.
  - destruct (set_if (image (extractMetadata c))),
      (set_if (author (extractMetadata c))); done.
  - destruct (Re.behaviorMatch c) as [g|];
      [destruct (unset (lumiaBehavior l))|];
      destruct (Re.personalityMatch c); done.
Qed.


Lemma named_set n l m : named m -> lumiaName l = n -> named (map_set n l m).
Proof.
  intros Hm Hl. induction Hm as [|[k l'] m H Hm IH]; cbn [map_set].
  - by repeat constructor.
  - destruct (eqb n k) eqn:E.
    + apply eqb_eq in E as <-. by constructor.
    + by constructor.
Qed.

Lemma named_get n l m : named m -> map_get n m = Some l -> lumiaName l = n.
Proof.
  induction 1 as [|[k l'] m H _ IH]; cbn [map_get]; [done|].
  destruct (eqb n k) eqn:E; [|done].
  apply eqb_eq in E as <-. by intros [= <-].
Qed.

Lemma step_keys m looms e :
  rawEntry e = true -> named m ->
  exists m' looms',
    step (m, looms) e = Ok (m', looms') /\ named m' /\
    map fst m' = from_option (add_name (map fst m)) (map fst m) (fragmentName e).
Proof.
  intros R Hm. unfold fragmentName.
  destruct (fragmentOf e) as [[[n t] c]|] eqn:F; cbn [fmap option_fmap option_map from_option fst].
  - eexists _, _. split; [by apply step_fragment|]. split.
    + apply named_set; [done|]. rewrite applyEntry_name.
      destruct (map_get n m) eqn:G; [by eapply named_get | done].
    + by rewrite map_set_keys.
  - destruct (step_no_fragment m looms e R F) as [looms' ->]. eauto.
Qed.

Lemma loop_keys es :
  Forall (fun e => rawEntry e = true) es ->
  forall m looms, named m ->
  exists m' looms',
    loop es (m, looms) = Ok (m', looms') /\ named m' /\
    map fst m' = foldl add_name (map fst m) (omap fragmentName es).
Proof.
  induction 1 as [|e es R _ IH]; intros m looms Hm.
  - by eexists _, _.
  - destruct (step_keys m looms e R Hm) as (m1 & looms1 & S1 & N1 & K1).
    destruct (IH m1 looms1 N1) as (m2 & looms2 & S2 & N2 & K2).
    exists m2, looms2. cbn [loop]. rewrite S1. cbn [mbind result_bind].
    split; [done|]. split; [done|]. rewrite K2, K1. cbn [omap list_omap].
    by destruct (fragmentName e).
Qed.

Lemma filter_filter {A} (f g : A -> bool) l :
  List.filter f (List.filter g l) = List.filter (fun y => g y && f y) l.
Proof.
  induction l as [|x l IH]; [done|]. cbn [List.filter].
  destruct (g x); cbn [List.filter andb]; [|done]. destruct (f x); by rewrite IH.
Qed.

Lemma fresh_true ks y : fresh ks y = true <-> y ∉ ks.
Proof.
  unfold fresh. rewrite negb_true_iff. apply bool_decide_eq_false.
Qed.

Lemma fresh_false ks y : fresh ks y = false <-> y ∈ ks.
Proof.
  unfold fresh. rewrite negb_false_iff. apply bool_decide_eq_true.
Qed.

Lemma foldl_add_name ns : forall ks,
  foldl add_name ks ns = ks ++ List.filter (fresh ks) (first_seen ns).
Proof.
  induction ns as [|n ns IH]; intros ks.
  - cbn. by rewrite app_nil_r.
  - cbn [foldl first_seen List.filter]. rewrite IH. unfold add_name.
    destruct (decide (n ∈ ks)) as [H|H].
    + rewrite bool_decide_eq_true_2 by done.
      rewrite (proj2 (fresh_false ks n) H). f_equal.
      rewrite filter_filter. apply List.filter_ext. intros y.
      destruct (eqb y n) eqn:E; [|done]. apply eqb_eq in E as ->.
      cbn [negb andb]. by apply fresh_false.
    + rewrite bool_decide_eq_false_2 by done.
      rewrite (proj2 (fresh_true ks n) H).
      rewrite <- app_assoc. cbn [app]. do 2 f_equal.
      rewrite filter_filter. apply List.filter_ext. intros y.
      destruct (eqb y n) eqn:E; cbn [negb andb].
      * apply eqb_eq in E as ->. apply fresh_false.
        apply elem_of_app. right. by apply list_elem_of_singleton.
      * apply eqb_neq in E.
        destruct (fresh ks y) eqn:F.
        -- apply fresh_true in F. apply fresh_true.
           apply not_elem_of_app. split; [done|]. by rewrite list_elem_of_singleton.
        -- apply fresh_false in F. apply fresh_false.
           apply elem_of_app. by left.
Qed.

Lemma first_seen_NoDup ns : NoDup (first_seen ns).
Proof.
  induction ns as [|n ns IH]; cbn [first_seen]; constructor.
  - rewrite list_elem_of_In, filter_In. intros [_ H].
    by rewrite eqb_refl in H.
  - apply NoDup_ListNoDup, List.NoDup_filter, NoDup_ListNoDup, IH.
Qed.

Lemma filter_fresh_nil l : List.filter (fresh []) l = l.
Proof.
  induction l as [|x l IH]; [done|]. cbn [List.filter].
  rewrite (proj2 (fresh_true [] x)) by apply not_elem_of_nil. by rewrite IH.
Qed.

End Names.

Section Assembly.
Import Str Script Props.

Lemma map_get_set_ne n n' l m : n <> n' -> map_get n (map_set n' l m) = map_get n m.
Proof.
  intros Hn. induction m as [|[k l'] m IH]; cbn [map_set map_get].
  - by rewrite (proj2 (eqb_neq n n')).
  - destruct (eqb n' k) eqn:E; cbn [map_get].
    + apply eqb_eq in E as <-. by rewrite (proj2 (eqb_neq n n')).
    + by rewrite IH.
Qed.

Lemma map_get_elem n l m : map_get n m = Some l -> l ∈ map snd m.
Proof.
  induction m as [|[k l'] m IH]; cbn [map_get map snd]; [done|].
  destruct (eqb n k); [intros [= ->]; left | intros; right; auto].
Qed.

Lemma map_get_unique n l l' m :
  named m -> map_get n m = Some l -> NoDup (map fst m) ->
  l' ∈ map snd m -> lumiaName l' = n -> l' = l.
Proof.
  induction 1 as [|[k l0] m H Hm IH]; cbn [map_get map fst snd]; [done|].
  cbn [fst snd] in H. intros G ND Hin Hn. apply NoDup_cons in ND as [Hk ND].
  destruct (eqb n k) eqn:E.
  - apply eqb_eq in E as <-. injection G as ->. apply elem_of_cons in Hin as [|Hin]; [done|].
    exfalso. apply Hk. apply list_elem_of_fmap in Hin as ([k' l1] & -> & Hin).
    cbn [snd] in Hn. rewrite Forall_forall in Hm. specialize (Hm _ Hin). cbn in Hm.
    apply list_elem_of_fmap. exists (k', l1). split; [cbn; congruence | done].
  - apply eqb_neq in E. apply elem_of_cons in Hin as [->|Hin]; [congruence|]. auto.
Qed.

Lemma loop_first_seen es :
  Forall (fun e => rawEntry e = true) es ->
  exists m looms,
    loop es ([], []) = Ok (m, looms) /\ named m /\
    map fst m = first_seen (omap fragmentName es).
Proof.
  intros R. destruct (loop_keys es R [] []) as (m & looms & L & N & K).
  { constructor. }
  exists m, looms. split; [done|]. split; [done|].
  rewrite K, foldl_add_name. cbn [map app]. apply filter_fresh_nil.
Qed.

(** C9.  An entry whose comment has no parenthesized name (such a comment
    cannot match the Loom heading pattern either) is passed over by the
    loop: the state is unchanged, no exception is raised, and the result
    of processWorldBook over a sequence with the entry is its result over
    the sequence without it. *)
Theorem unnamed_entry_dropped (e : value) (cm : jsstring) :
  commentOf e = Some cm ->
  Re.nameMatch cm = None ->
  loomNameMatch cm = None /\
  (forall st, step st e = Ok st) /\
  (forall l1 l2 st, loop (l1 ++ e :: l2) st = loop (l1 ++ l2) st) /\
  (forall l1 l2,
     processWorldBook (VArr (l1 ++ e :: l2)) = processWorldBook (VArr (l1 ++ l2))).
Proof.
  intros C N. pose proof (loomNameMatch_nameMatch cm N) as L.
  assert (S : forall st, step st e = Ok st) by (intros; by eapply step_dropped).
  assert (P : forall l1 l2 st, loop (l1 ++ e :: l2) st = loop (l1 ++ l2) st).
  { intros l1 l2 st. rewrite !loop_app. destruct (loop l1 st) as [st'|]; [|done].
    cbn [mbind result_bind loop]. by rewrite S. }
  split; [done|]. split; [done|]. split; [done|]. intros l1 l2.
  unfold processWorldBook. cbn [entriesOf]. by rewrite P.
Qed.

Lemma applyEntry_keeps_behavior t c c' l :
  t <> Some behavior -> lumiaBehavior l = Some c -> c <> [] ->
  lumiaBehavior (applyEntry t c' l) = Some c.
Proof.
  intros Ht Hl Hc. destruct t as [[| |]|]; cbn [applyEntry]; try done.
  - destruct (set_if (image (extractMetadata c'))),
      (set_if (author (extractMetadata c'))); done.
  - assert (U : unset (lumiaBehavior l) = false) by (rewrite Hl; by destruct c).
    rewrite U. destruct (Re.behaviorMatch c'), (Re.personalityMatch c'); done.
Qed.

Lemma loop_keeps_behavior n c es :
  c <> [] ->
  Forall (fun e => rawEntry e = true) es ->
  Forall (fun e => forall c', fragmentOf e <> Some (n, Some behavior, c')) es ->
  forall m looms l,
    named m -> NoDup (map fst m) ->
    map_get n m = Some l -> lumiaBehavior l = Some c ->
    exists m' looms' l',
      loop es (m, looms) = Ok (m', looms') /\ named m' /\ NoDup (map fst m') /\
      map_get n m' = Some l' /\ lumiaBehavior l' = Some c.
Proof.
  intros Hc R. induction R as [|e es R _ IH]; intros NB m looms l Hm ND G B.
  - by eexists _, _, _.
  - apply Forall_cons in NB as [NB1 NB].
    destruct (fragmentOf e) as [[[n' t] c']|] eqn:F.
    + cbn [loop]. rewrite (step_fragment _ _ _ _ _ _ F). cbn [mbind result_bind].
      set (X := applyEntry t c' (default (newLumia n') (map_get n' m))).
      assert (HX : lumiaName X = n').
      { unfold X. rewrite applyEntry_name.
        destruct (map_get n' m) eqn:G'; [by eapply named_get | done]. }
      assert (ND' : NoDup (map fst (map_set n' X m))).
      { rewrite map_set_keys. case_bool_decide as Hin; [done|].
        apply NoDup_app. split; [done|]. split; [|apply NoDup_singleton].
        intros x Hx ->%list_elem_of_singleton. done. }
      destruct (decide (n' = n)) as [->|Hne].
      * apply (IH NB _ looms X); [by apply named_set | done | apply map_get_set_eq |].
        unfold X. rewrite G. cbn [default]. apply applyEntry_keeps_behavior; try done.
        intros ->. by apply (NB1 c').
      * apply (IH NB _ looms l); [by apply named_set | done | | done].
        rewrite map_get_set_ne; [done | congruence].
    + destruct (step_no_fragment m looms e R F) as [looms' S].
      cbn [loop]. rewrite S. cbn [mbind result_bind]. by apply (IH NB _ looms' l).
Qed.

(** C6, as amended.  The behavior text of an item is the raw content,
    character for character, of the last behavior fragment of its name:
    earlier fragments of any type are overwritten, and later fragments of
    the other types leave it alone. *)
Theorem behavior_is_raw_content (before after : list value) (e : value)
    (n c : jsstring) :
  Forall (fun e => rawEntry e = true) before ->
  Forall (fun e => rawEntry e = true) after ->
  fragmentOf e = Some (n, Some behavior, c) ->
  Forall (fun e' => forall c', fragmentOf e' <> Some (n, Some behavior, c')) after ->
  exists lumiaItems loomItems,
    processWorldBook (VArr (before ++ e :: after)) = Ok (lumiaItems, loomItems) /\
    (exists l, l ∈ lumiaItems /\ lumiaName l = n) /\
    (forall l, l ∈ lumiaItems -> lumiaName l = n -> lumiaBehavior l = Some c).
Proof.
  intros R1 R2 F NB.
  destruct (loop_first_seen before R1) as (m1 & looms1 & L1 & N1 & K1).
  assert (ND1 : NoDup (map fst m1)) by (rewrite K1; apply first_seen_NoDup).
  set (X := applyEntry (Some behavior) c (default (newLumia n) (map_get n m1))).
  assert (HX : lumiaName X = n).
  { unfold X. rewrite applyEntry_name.
    destruct (map_get n m1) eqn:G'; [by eapply named_get | done]. }
  assert (Hc : c <> []).
  { unfold fragmentOf, entryText in F. destruct e; try discriminate.
    destruct (Js.lookup "content" fs) as [| | | |[|ch cs]| |]; try discriminate.
    destruct (Js.or _ _); try discriminate. destruct (loomHeading _); [discriminate|].
    destruct (Re.nameMatch _); [|discriminate]. by injection F as _ _ <-. }
  destruct (loop_keeps_behavior n c after Hc R2 NB (map_set n X m1) looms1 X)
    as (m2 & looms2 & l2 & L2 & N2 & ND2 & G2 & B2).
  { by apply named_set. }
  { rewrite map_set_keys. case_bool_decide as Hin; [done|].
    apply NoDup_app. split; [done|]. split; [|apply NoDup_singleton].
    intros x Hx ->%list_elem_of_singleton. done. }
  { apply map_get_set_eq. }
  { done. }
  exists (map snd m2), looms2. unfold processWorldBook. cbn [entriesOf].
  rewrite loop_app, L1. cbn [mbind result_bind loop].
  rewrite (step_fragment _ _ _ _ _ _ F). cbn [mbind result_bind].
  fold X. rewrite L2. split; [done|]. split.
  - exists l2. split; [by eapply map_get_elem | by eapply named_get].
  - intros l Hin Hn. by rewrite (map_get_unique n l2 l m2 N2 G2 ND2 Hin Hn).
Qed.

End Assembly.

Section Classification.
Import Str Script Props More.

(** C2, as stated, fails: an entry whose outlet is Lumia_Behavior and
    whose comment contains "definition" is classified as a definition
    fragment, and its content becomes the definition text. *)
Lemma outlet_before_keyword_counterexample :
  includes "definition" (toLowerCase "Aria definition (Aria)") = true /\
  entryType (VStr "Lumia_Behavior") "Aria definition (Aria)"
    (categoryMatch "Aria definition (Aria)") "Bold." = Some definition /\
  processWorldBook
    (VArr [VObj [(lit "comment", VStr "Aria definition (Aria)");
                 (lit "content", VStr "Bold.");
                 (lit "outletName", VStr "Lumia_Behavior")]]) =
  Ok ([mkLumia "Aria" None None None (Some (lit "Bold.")) None 0 1], []).
Proof. by vm_compute. Qed.

Lemma includes_spec p s : includes p s = true <-> hasSubstring p s.
Proof.
  unfold includes, hasSubstring. split.
  - destruct (search (strip_prefix p) s) as [[pre r]|] eqn:S; [|done]. intros _.
    apply search_spec in S as (t & -> & M & _).
    apply strip_prefix_spec in M as ->. eauto.
  - intros (a & b & ->).
    destruct (search (strip_prefix p) (a ++ p ++ b)) as [[pre r]|] eqn:S; [done|].
    by destruct (search_some (strip_prefix p) a (p ++ b) b (strip_prefix_app p b)).
Qed.

Lemma is_str_spec s v : Js.is_str s v = true <-> v = VStr s.
Proof.
  destruct v; cbn [Js.is_str]; try (split; [done | discriminate]).
  rewrite eqb_eq. split; [by intros -> | by intros [= ->]].
Qed.

Lemma chosenBy_spec outlet keyword o c :
  Js.is_str outlet o || includes keyword (toLowerCase c) = true <->
  chosenBy outlet keyword o c.
Proof. unfold chosenBy. by rewrite orb_true_iff, is_str_spec, includes_spec. Qed.

Lemma not_chosenBy_spec outlet keyword o c :
  Js.is_str outlet o || includes keyword (toLowerCase c) = false <->
  ~ chosenBy outlet keyword o c.
Proof.
  rewrite <- chosenBy_spec. destruct (_ || _); intuition congruence.
Qed.

(** C2, as amended.  In both copies the types are tried in the order
    definition, behavior, personality, and each is chosen by its outlet
    identifier or by its keyword in the lower-cased comment, whatever the
    outlet is (a string or none): definition whenever it is chosen,
    behavior when definition is not chosen and behavior is, personality
    when neither of these is chosen and personality is, and neither
    behavior nor personality when none is chosen.  So the keyword of an
    earlier type wins over the outlet identifier of a later one: an entry
    whose outlet is Lumia_Behavior is a definition fragment when its
    comment contains the word definition and a behavior fragment when it
    does not. *)
Theorem type_by_outlet_or_keyword (outletName : value) (comment : jsstring)
    (cat : option jsstring) (content : jsstring) :
  let def := chosenBy "Lumia_Description" "definition" outletName comment in
  let beh := chosenBy "Lumia_Behavior" "behavior" outletName comment in
  let per := chosenBy "Lumia_Personality" "personality" outletName comment in
  (def ->
   entryType outletName comment cat content = Some definition /\
   Legacy.entryType outletName comment = Some definition) /\
  (~ def -> beh ->
   entryType outletName comment cat content = Some behavior /\
   Legacy.entryType outletName comment = Some behavior) /\
  (~ def -> ~ beh -> per ->
   entryType outletName comment cat content = Some personality /\
   Legacy.entryType outletName comment = Some personality) /\
  (~ def -> ~ beh -> ~ per ->
   entryType outletName comment cat content <> Some behavior /\
   entryType outletName comment cat content <> Some personality /\
   Legacy.entryType outletName comment = None) /\
  (outletName = VStr "Lumia_Behavior" ->
   (hasSubstring "definition" (toLowerCase comment) ->
    entryType outletName comment cat content = Some definition /\
    Legacy.entryType outletName comment = Some definition) /\
   (~ hasSubstring "definition" (toLowerCase comment) ->
    entryType outletName comment cat content = Some behavior /\
    Legacy.entryType outletName comment = Some behavior)).
Proof.
  cbn zeta. unfold entryType, Legacy.entryType. cbn zeta.
  destruct (Js.is_str "Lumia_Description" outletName
            || includes "definition" (toLowerCase comment)) eqn:E1.
  { apply chosenBy_spec in E1.
    split; [done|]. split; [by intros []|]. split; [by intros []|].
    split; [by intros []|]. intros ->. split; [done|]. intros K.
    destruct E1 as [E1|E1]; [discriminate | by destruct K]. }
  apply not_chosenBy_spec in E1. split; [by intros ?|].
  assert (K : outletName = VStr "Lumia_Behavior" ->
              ~ hasSubstring "definition" (toLowerCase comment)).
  { intros _ H. apply E1. by right. }
  destruct (Js.is_str "Lumia_Behavior" outletName
            || includes "behavior" (toLowerCase comment)) eqn:E2.
  { apply chosenBy_spec in E2.
    split; [done|]. split; [by intros _ []|]. split; [by intros _ []|].
    intros H. split; [|done]. intros H'. by destruct (K H). }
  assert (E2' := E2). apply not_chosenBy_spec in E2. split; [by intros _ ?|].
  assert (B : outletName <> VStr "Lumia_Behavior").
  { intros ->. by rewrite orb_true_l in E2'. }
  destruct (Js.is_str "Lumia_Personality" outletName
            || includes "personality" (toLowerCase comment)) eqn:E3.
  { apply chosenBy_spec in E3.
    split; [done|]. split; [by intros _ _ []|]. by intros ?. }
  apply not_chosenBy_spec in E3. split; [by intros _ _ ?|]. split; [|by intros ?].
  intros _ _ _.
  destruct (match cat with Some _ => _ | None => _ end);
    [done | by destruct (includes "[lumia_img=" content)].
Qed.

Lemma type_by_outlet_or_keyword_witness :
  entryType VUndef "Personality (Aria)" None "Shy." = Some personality /\
  Legacy.entryType VUndef "Personality (Aria)" = Some personality.
Proof.
  apply (type_by_outlet_or_keyword VUndef "Personality (Aria)" None "Shy.").
  - apply not_chosenBy_spec. reflexivity.
  - apply not_chosenBy_spec. reflexivity.
  - apply chosenBy_spec. reflexivity.
Defined.

(** C6, as stated, fails: the behavior text keeps the white space around
    the raw content. *)
Lemma behavior_trimmed_counterexample :
  fragmentOf (VObj [(lit "comment", VStr "Behavior (Aria)");
                    (lit "content", VStr " Be bold. ")]) =
  Some (lit "Aria", Some behavior, lit " Be bold. ") /\
  processWorldBook
    (VArr [VObj [(lit "comment", VStr "Behavior (Aria)");
                 (lit "content", VStr " Be bold. ")]]) =
  Ok ([mkLumia "Aria" None None (Some (lit " Be bold. ")) None None 0 1], []) /\
  trim " Be bold. " <> lit " Be bold. ".
Proof. by vm_compute. Qed.

End Classification.

Section Conversion.
Import Str Script Props.

Lemma get_not_nullish p k : nullish p = false -> Js.get p k = Ok (Js.get_opt p k).
Proof. by destruct p. Qed.

Lemma canonical_not_nullish p : canonical p = true -> nullish p = false.
Proof. by destruct p. Qed.

Lemma convertPack_canonical p n : canonical p = true -> convertPack p n = Ok p.
Proof.
  intros C. pose proof (canonical_not_nullish p C) as N. unfold convertPack.
  rewrite !get_not_nullish by done. cbn [mbind result_bind].
  unfold canonical in C. by rewrite C.
Qed.

Lemma convertPack_result_canonical p n q :
  convertPack p n = Ok q -> canonical q = true.
Proof.
  destruct (canonical p) eqn:C.
  - rewrite convertPack_canonical by done. by intros [= <-].
  - unfold convertPack. destruct (nullish p) eqn:N; [by destruct p|].
    rewrite !get_not_nullish by done. cbn [mbind result_bind].
    unfold canonical in C. rewrite C.
    destruct (Js.truthy (Js.get_opt p "entries") || Js.isArray p).
    + destruct (processWorldBook p) as [[ls lo]|]; [|done].
      cbn [mbind result_bind]. by intros [= <-].
    + destruct (Js.get_opt p "items"); try done.
      destruct (convertItems l [] []) as [[ls lo]|]; [|done].
      cbn [mbind result_bind]. by intros [= <-].
Qed.

(** C3, as stated, fails: a payload whose lumiaItems field is present but
    null is not returned unchanged; here it is converted as a World
    Book. *)
Lemma present_field_counterexample :
  exposes "lumiaItems"
    (VObj [(lit "lumiaItems", VNull); (lit "entries", VObj [])]) = true /\
  convertPack (VObj [(lit "lumiaItems", VNull); (lit "entries", VObj [])]) "book" =
  Ok (worldBookPack "book" [] []) /\
  convertPack (VObj [(lit "lumiaItems", VNull)]) "book" = Throw UnknownInputFormat.
Proof. by vm_compute. Qed.

(** C3, as amended.  A payload whose lumiaItems or loomItems field holds
    a truthy value (any array, in particular) is returned unchanged, and
    every pack that convertPack returns is such a payload: converting it
    again, under any source name, returns it unchanged. *)
Theorem convertPack_idempotent (p : value) (n : jsstring) :
  (Js.truthy (Js.get_opt p "lumiaItems") = true \/
   Js.truthy (Js.get_opt p "loomItems") = true ->
   convertPack p n = Ok p) /\
  (forall q, convertPack p n = Ok q -> forall n', convertPack q n' = Ok q).
Proof.
  split.
  - intros H. apply convertPack_canonical. unfold canonical, Js.or.
    destruct H as [H|H]; [by rewrite H|].
    by destruct (Js.truthy (Js.get_opt p "lumiaItems")) eqn:E.
  - intros q H n'. apply convertPack_canonical. by eapply convertPack_result_canonical.
Qed.

Lemma convertPack_idempotent_witness :
  convertPack (VObj [(lit "packName", VStr "P"); (lit "lumiaItems", VArr [])]) "x" =
    Ok (VObj [(lit "packName", VStr "P"); (lit "lumiaItems", VArr [])]) /\
  convertPack (worldBookPack "book" [] []) "other" = Ok (worldBookPack "book" [] []).
Proof.
  split.
  - apply (proj1 (convertPack_idempotent _ _)). left. reflexivity.
  - apply (proj2 (convertPack_idempotent (VArr []) "book")). reflexivity.
Defined.

(** C8, as stated, fails: a null payload fails with a type error, not
    with the unsupported-format error, and a payload whose entries field
    is a string, not a mapping, is converted to a pack. *)
Lemma unsupported_format_counterexample :
  convertPack VNull "book" = Throw TypeError /\
  convertPack (VObj [(lit "entries", VStr "none")]) "book" =
  Ok (worldBookPack "book" [] []).
Proof. by vm_compute. Qed.

(** C8, as amended.  For a payload other than null: a truthy lumiaItems
    or loomItems field returns the payload; failing that, a truthy
    entries field or an array payload selects the World Book conversion;
    failing that, an items array selects the conversion of the old
    internal format; failing that, convertPack throws the unknown-format
    error, and no pack is returned. *)
Theorem shape_detection (p : value) (n : jsstring) :
  nullish p = false ->
  (canonical p = true -> convertPack p n = Ok p) /\
  (canonical p = false -> entryCollection p = true ->
   convertPack p n =
     r ← processWorldBook p; Ok (worldBookPack n (fst r) (snd r))) /\
  (canonical p = false -> entryCollection p = false ->
   forall l, Js.get_opt p "items" = VArr l ->
   convertPack p n =
     r ← convertItems l [] []; Ok (legacyPack p n (fst r) (snd r))) /\
  (canonical p = false -> entryCollection p = false -> internalPack p = false ->
   convertPack p n = Throw UnknownInputFormat).
Proof.
  intros N. split; [apply convertPack_canonical|].
  unfold convertPack, canonical, entryCollection, internalPack.
  rewrite !get_not_nullish by done. cbn [mbind result_bind].
  repeat split.
  - intros -> ->. by destruct (processWorldBook p) as [[ls lo]|].
  - intros -> -> l ->. by destruct (convertItems l [] []) as [[ls lo]|].
  - intros -> -> I. by destruct (Js.get_opt p "items").
Qed.

Lemma shape_detection_witness :
  convertPack (VObj [(lit "name", VStr "P"); (lit "items", VStr "none")]) "book" =
  Throw UnknownInputFormat.
Proof.
  by apply (shape_detection
              (VObj [(lit "name", VStr "P"); (lit "items", VStr "none")]) "book").
Defined.

End Conversion.

Section Migration.
Import Str Legacy Props.

(** The migration when its guard holds and at least one item is derived. *)
Lemma migrateSettings_run s items :
  guard s = true -> legacyItems s = Ok items -> items <> [] ->
  migrateSettings s =
  Ok (true,
      mkSettings
        (<[packName :=
             VObj [ (lit "name", VStr packName);
                    (lit "items", VArr items);
                    (lit "url", Js.or (read (worldBookUrl s)) (VStr "Legacy")) ]]>
           (packs s))
        (migrateDefinition items (selectedDefinition s))
        (migrateList items (selectedBehaviors s))
        (migrateList items (selectedPersonalities s))
        (match lumiaOOCInterval s with VUndef => VNull | v => v end)
        None None None).
Proof.
  intros G L N. unfold migrateSettings. rewrite G, L.
  destruct items as [|i items]; [done|].
  cbn [length Nat.ltb Nat.leb mbind result_bind].
  unfold ensureDefaults. cbn [packs selectedDefinition selectedBehaviors
    selectedPersonalities lumiaOOCInterval lumiaLibrary worldBookData worldBookUrl].
  assert (T : forall v, Js.truthy (migrateList (i :: items) v) = true).
  { intros v. unfold migrateList. by destruct v as [| | | | |[|[]]|]. }
  by rewrite !T.
Qed.

(** The migration when its guard holds and no item is derived. *)
Lemma migrateSettings_empty s :
  guard s = true -> legacyItems s = Ok [] ->
  migrateSettings s = Ok (false, ensureDefaults s).
Proof.
  intros G L. unfold migrateSettings. by rewrite G, L.
Qed.

(** C1, as stated, fails: with an empty legacy list and a raw payload
    without entries the guard holds, no item is derived, and the three
    legacy keys are still there afterwards. *)
Lemma legacy_keys_counterexample :
  guard (mkSettings ∅ VNull (VArr []) (VArr []) VNull
           (Some []) (Some (VObj [(lit "entries", VObj [])]))
           (Some (VStr "http://x/book.json"))) = true /\
  exists s',
    migrateSettings (mkSettings ∅ VNull (VArr []) (VArr []) VNull
           (Some []) (Some (VObj [(lit "entries", VObj [])]))
           (Some (VStr "http://x/book.json"))) = Ok (false, s') /\
    lumiaLibrary s' = Some [] /\
    worldBookData s' = Some (VObj [(lit "entries", VObj [])]) /\
    worldBookUrl s' = Some (VStr "http://x/book.json").
Proof.
  split; [by vm_compute|]. eexists. split.
  - apply migrateSettings_empty; by vm_compute.
  - done.
Qed.

(** C1, as amended.  When the guard holds and the migration derives at
    least one item, the three legacy keys are absent afterwards; when it
    derives none, nothing is migrated and the three keys stay as they
    were. *)
Theorem legacy_keys_deleted (s : Settings) (items : list value) :
  guard s = true ->
  legacyItems s = Ok items ->
  exists s',
    migrateSettings s = Ok (negb (bool_decide (items = [])), s') /\
    if bool_decide (items = [])
    then lumiaLibrary s' = lumiaLibrary s /\
         worldBookData s' = worldBookData s /\
         worldBookUrl s' = worldBookUrl s
    else lumiaLibrary s' = None /\
         worldBookData s' = None /\
         worldBookUrl s' = None.
Proof.
  intros G L. case_bool_decide as E.
  - subst. eexists. split; [by apply migrateSettings_empty | done].
  - eexists. split; [by apply migrateSettings_run | done].
Qed.

Lemma legacy_keys_deleted_witness :
  exists s',
    migrateSettings
      (mkSettings ∅ (VNum 0) (VArr []) (VArr []) VNull
         (Some [VObj [(lit "lumiaDefName", VStr "Aria")]]) None
         (Some (VStr "http://x/book.json"))) = Ok (true, s') /\
    lumiaLibrary s' = None /\ worldBookData s' = None /\ worldBookUrl s' = None.
Proof.
  apply (legacy_keys_deleted
           (mkSettings ∅ (VNum 0) (VArr []) (VArr []) VNull
              (Some [VObj [(lit "lumiaDefName", VStr "Aria")]]) None
              (Some (VStr "http://x/book.json")))
           [VObj [(lit "lumiaDefName", VStr "Aria")]]); reflexivity.
Defined.

Lemma getName_index items i :
  getName items (VNum i) =
  if (0 <=? i) && (i <? Z.of_nat (length items))
  then Js.get_opt (default VUndef (items !! Z.to_nat i)) "lumiaDefName"
  else VUndef.
Proof.
  unfold getName, element. cbn [key_index].
  destruct (0 <=? i); [|done]. cbn [andb]. by destruct (i <? Z.of_nat (length items)).
Qed.

Lemma migrate_index items i :
  indexSelection items (VNum i) =
  match resolve items i with Some name => selection name | None => VNull end.
Proof.
  unfold indexSelection. cbn zeta. rewrite getName_index. unfold resolve.
  destruct ((0 <=? i) && (i <? Z.of_nat (length items))); [|done].
  by destruct (Js.truthy _).
Qed.

Lemma migrate_indices items (indices : list Z) :
  List.filter Js.truthy (map (indexSelection items) (map VNum indices)) =
  omap (fun i => selection <$> resolve items i) indices.
Proof.
  induction indices as [|i indices IH]; [done|].
  cbn [map List.filter omap list_omap]. rewrite IH, migrate_index.
  by destruct (resolve items i).
Qed.

(** C4.  A numeric selection [i] becomes the object with packName
    "Default (Legacy)" and itemName the name of the item at [i] when [i]
    is in range and that item has a name, and null when [i] is out of
    range or the item has no name; a sequence of indices is migrated index
    by index and the indices that do not resolve are left out.  Both are
    total functions, so nothing is thrown, and they are what
    migrateSettings stores when it migrates. *)
Theorem selection_migration (items : list value) :
  let legacyRef := fun name : value =>
    VObj [ (lit "packName", VStr "Default (Legacy)"); (lit "itemName", name) ] in
  (forall i item name,
     0 <= i < Z.of_nat (length items) ->
     items !! Z.to_nat i = Some item ->
     Js.get_opt item "lumiaDefName" = name -> Js.truthy name = true ->
     migrateDefinition items (VNum i) = legacyRef name) /\
  (forall i,
     i < 0 \/ Z.of_nat (length items) <= i ->
     migrateDefinition items (VNum i) = VNull) /\
  (forall i item,
     items !! Z.to_nat i = Some item ->
     Js.truthy (Js.get_opt item "lumiaDefName") = false ->
     migrateDefinition items (VNum i) = VNull) /\
  (forall i,
     migrateDefinition items (VNum i) =
     match resolve items i with
     | Some name => legacyRef name
     | None => VNull
     end) /\
  (forall indices,
     migrateList items (VArr (map VNum indices)) =
     VArr (omap (fun i => legacyRef <$> resolve items i) indices)) /\
  (forall s,
     guard s = true -> legacyItems s = Ok items -> items <> [] ->
     exists s',
       migrateSettings s = Ok (true, s') /\
       selectedDefinition s' = migrateDefinition items (selectedDefinition s) /\
       selectedBehaviors s' = migrateList items (selectedBehaviors s) /\
       selectedPersonalities s' = migrateList items (selectedPersonalities s)).
Proof.
  cbn zeta.
  assert (M : forall i, migrateDefinition items (VNum i) =
                match resolve items i with
                | Some name =>
                    VObj [ (lit "packName", VStr "Default (Legacy)");
                           (lit "itemName", name) ]
                | None => VNull
                end).
  { intros i. unfold migrateDefinition. apply migrate_index. }
  split; [|split; [|split; [|split; [|split]]]].
  - intros i item name R L N T. rewrite M. unfold resolve.
    replace ((0 <=? i) && (i <? Z.of_nat (length items))) with true
      by (symmetry; apply andb_true_iff; split; [apply Z.leb_le | apply Z.ltb_lt]; lia).
    rewrite L. cbn [default id]. by rewrite N, T.
  - intros i R. rewrite M. unfold resolve.
    replace ((0 <=? i) && (i <? Z.of_nat (length items))) with false; [done|].
    symmetry. apply andb_false_iff.
    destruct R; [left; apply Z.leb_gt | right; apply Z.ltb_ge]; lia.
  - intros i item L T. rewrite M. unfold resolve.
    destruct ((0 <=? i) && (i <? Z.of_nat (length items))); [|done].
    rewrite L. cbn [default id]. by rewrite T.
  - exact M.
  - intros indices.
    transitivity (VArr (omap (fun i => selection <$> resolve items i) indices));
      [|done].
    destruct indices as [|i indices]; [done|]. cbn [map migrateList].
    by rewrite <- (migrate_indices items (i :: indices)).
  - intros s G L N. eexists. split; [by apply migrateSettings_run | done].
Qed.

(** C10.  When the migration runs, a multi-selection that is not in
    numeric-index form (not an array, empty, or starting with something
    else than a number) is replaced by the empty array, whatever it
    held. *)
Theorem non_numeric_selection_reset (s : Settings) (items : list value) :
  guard s = true -> legacyItems s = Ok items -> items <> [] ->
  exists s',
    migrateSettings s = Ok (true, s') /\
    (numericForm (selectedBehaviors s) = false -> selectedBehaviors s' = VArr []) /\
    (numericForm (selectedPersonalities s) = false ->
     selectedPersonalities s' = VArr []).
Proof.
  intros G L N. eexists. split; [by apply migrateSettings_run|].
  cbn [selectedBehaviors selectedPersonalities].
  assert (R : forall v, numericForm v = false -> migrateList items v = VArr []).
  { intros v. unfold numericForm, migrateList. by destruct v as [| | | | |[|[]]|]. }
  split; apply R.
Qed.

End Migration.

Section Examples.
Import Str Props.

(** A definition entry with both inline tags. *)
Example definition_entry :
  Script.processWorldBook
    (VArr [entry "Lumia_Description (Aria)"
             "A quiet librarian. [lumia_img=http://x/img.png][lumia_author=Bob]"]) =
  Ok ([Script.mkLumia "Aria" (Some (lit "http://x/img.png")) None None
         (Some (lit "A quiet librarian.")) (Some (lit "Bob")) 0 1], []).
Proof. by vm_compute. Qed.

(** A Loom entry. *)
Example loom_entry :
  Script.processWorldBook
    (VArr [entry "Narrative Style (Gothic)" "Write in a dark tone."]) =
  Ok ([], [Script.mkLoom "Gothic" "Write in a dark tone." "Narrative Style"]).
Proof. by vm_compute. Qed.

(** A legacy personality entry with a behavior marker and no personality
    marker. *)
Example legacy_personality_entry :
  Script.processWorldBook
    (VArr [entry "Personality (Aria)"
             "{{setvar::lumia_behavior_aria::Be brave}} Shy at first."]) =
  Ok ([Script.mkLumia "Aria" None
         (Some (lit "{{setvar::lumia_behavior_aria::Be brave}} Shy at first."))
         (Some (lit "Be brave")) None None 0 1], []).
Proof. by vm_compute. Qed.

(** An entry that is null stops the whole conversion. *)
Example null_entry :
  Script.processWorldBook (VArr [VNull]) = Throw TypeError.
Proof. by vm_compute. Qed.

(** A key of a multi-selection that is the string of an index resolves
    like the index. *)
Example string_index :
  Legacy.migrateList exampleItems (VArr [VNum 1; VStr "3"; VStr "03"; VNull]) =
  VArr [Legacy.selection (VStr "Bo"); Legacy.selection (VStr "Di")].
Proof. by vm_compute. Qed.

End Examples.

Section Witnesses.
Import Str Props.

Lemma unnamed_entry_dropped_witness :
  Script.processWorldBook
    (VArr ([entry "Behavior (Bo)" "Loud."] ++
           entry "Retrofits: no name" "Ignored." :: [entry "Personality (Bo)" "Shy."])) =
  Script.processWorldBook
    (VArr ([entry "Behavior (Bo)" "Loud."] ++ [entry "Personality (Bo)" "Shy."])).
Proof.
  apply (unnamed_entry_dropped (entry "Retrofits: no name" "Ignored.")
           "Retrofits: no name"); reflexivity.
Defined.

Lemma behavior_is_raw_content_witness :
  exists lumiaItems loomItems,
    Script.processWorldBook
      (VArr ([entry "Behavior (Aria)" "Old."] ++
             entry "Behavior (Aria)" " Be bold. " ::
             [entry "Personality (Aria)" "Shy."])) = Ok (lumiaItems, loomItems) /\
    (exists l, l ∈ lumiaItems /\ Script.lumiaName l = lit "Aria") /\
    (forall l, l ∈ lumiaItems -> Script.lumiaName l = lit "Aria" ->
               Script.lumiaBehavior l = Some (lit " Be bold. ")).
Proof.
  apply (behavior_is_raw_content [entry "Behavior (Aria)" "Old."]
           [entry "Personality (Aria)" "Shy."]
           (entry "Behavior (Aria)" " Be bold. ")).
  - repeat constructor.
  - repeat constructor.
  - reflexivity.
  - constructor; [|constructor]. intros c'. vm_compute. discriminate.
Defined.

Lemma selection_migration_witness :
  Legacy.migrateDefinition exampleItems (VNum 2) =
    VObj [ (lit "packName", VStr "Default (Legacy)"); (lit "itemName", VStr "Cy") ] /\
  Legacy.migrateDefinition exampleItems (VNum 99) = VNull /\
  Legacy.migrateList exampleItems (VArr (map VNum [0; 99; 4])) =
    VArr [ VObj [ (lit "packName", VStr "Default (Legacy)");
                  (lit "itemName", VStr "Aria") ];
           VObj [ (lit "packName", VStr "Default (Legacy)");
                  (lit "itemName", VStr "Ed") ] ] /\
  exists s',
    Legacy.migrateSettings exampleSettings = Ok (true, s') /\
    Legacy.selectedDefinition s' =
      VObj [ (lit "packName", VStr "Default (Legacy)"); (lit "itemName", VStr "Cy") ] /\
    Legacy.selectedBehaviors s' =
      VArr [ VObj [ (lit "packName", VStr "Default (Legacy)");
                    (lit "itemName", VStr "Aria") ];
             VObj [ (lit "packName", VStr "Default (Legacy)");
                    (lit "itemName", VStr "Ed") ] ] /\
    Legacy.selectedPersonalities s' = VArr [].
Proof.
  destruct (selection_migration exampleItems) as (D & O & _ & _ & M & S).
  split.
  { apply (D 2 (legacyItem "Cy") (VStr "Cy")); [cbn; lia | reflexivity..]. }
  split; [apply O; right; cbn; lia|]. split; [by rewrite M|].
  destruct (S exampleSettings) as (s' & R & E1 & E2 & E3);
    [reflexivity | reflexivity | discriminate |].
  exists s'. split; [exact R|]. rewrite E1, E2, E3. by repeat split.
Defined.

Lemma non_numeric_selection_reset_witness :
  exists s',
    Legacy.migrateSettings exampleSettings = Ok (true, s') /\
    Legacy.selectedPersonalities s' = VArr [].
Proof.
  destruct (non_numeric_selection_reset exampleSettings exampleItems)
    as (s' & R & _ & P); [reflexivity | reflexivity | discriminate |].
  exists s'. split; [exact R | by apply P].
Defined.

End Witnesses.

(** ** Further properties of the script and of the extension module *)

Section CliFacts.
Import Str Cli.

Lemma toLowerCase_length s : length (toLowerCase s) = length s.
Proof. apply length_map. Qed.

(** X1.  Without a second argument, main writes to the input path with
    its final .json, in any letter case, replaced by .converted.json; a
    path is its own default output path, so that the input file is
    overwritten, exactly when it does not end in .json. *)
Theorem defaultOutputPath_spec (inputPath : jsstring) :
  (forall stem ext,
     inputPath = stem ++ ext -> toLowerCase ext = lit ".json" ->
     defaultOutputPath inputPath = stem ++ ".converted.json") /\
  (defaultOutputPath inputPath = inputPath <->
   ~ exists stem ext, inputPath = stem ++ ext /\ toLowerCase ext = lit ".json").
Proof.
  assert (A : forall stem ext,
             inputPath = stem ++ ext -> toLowerCase ext = lit ".json" ->
             defaultOutputPath inputPath = stem ++ ".converted.json").
  { intros stem ext -> E. unfold defaultOutputPath.
    assert (L : length ext = 5%nat) by (by rewrite <- toLowerCase_length, E).
    rewrite length_app, L.
    replace (length stem + 5 - 5)%nat with (length stem) by lia.
    rewrite drop_app_length, take_app_length, E.
    replace (5 <=? length stem + 5)%nat with true by (symmetry; apply Nat.leb_le; lia).
    by rewrite eqb_refl. }
  split; [exact A|]. split.
  - intros H (stem & ext & E1 & E2). rewrite (A stem ext E1 E2) in H.
    rewrite E1 in H. apply app_inv_head in H.
    apply (f_equal (@length ascii)) in H.
    rewrite <- (toLowerCase_length ext), E2 in H. done.
  - intros H. unfold defaultOutputPath.
    destruct ((5 <=? length inputPath)%nat &&
              eqb (toLowerCase (drop (length inputPath - 5) inputPath)) ".json") eqn:E;
      [|done].
    destruct H. apply andb_true_iff in E as [_ E]. apply eqb_eq in E.
    exists (take (length inputPath - 5) inputPath), (drop (length inputPath - 5) inputPath).
    by rewrite take_drop.
Qed.

Lemma defaultOutputPath_spec_witness :
  defaultOutputPath "packs/Old.JSON" = lit "packs/Old.converted.json".
Proof.
  apply (proj1 (defaultOutputPath_spec "packs/Old.JSON") "packs/Old" ".JSON");
    reflexivity.
Defined.

End CliFacts.

Section EscapeFacts.
Import Str Ui More.

Lemma replaceAll_app c b x y :
  replaceAll c b (x ++ y) = replaceAll c b x ++ replaceAll c b y.
Proof.
  induction x as [|a x IH]; [done|]. cbn [app replaceAll]. by rewrite IH, app_assoc.
Qed.

Lemma replaceAll_concat c b (f : ascii -> jsstring) s :
  replaceAll c b (concat (map f s)) = concat (map (fun x => replaceAll c b (f x)) s).
Proof.
  induction s as [|a s IH]; [done|]. cbn [map concat].
  by rewrite replaceAll_app, IH.
Qed.

Lemma replaceAll_concat_id c b s :
  replaceAll c b s = concat (map (fun x => replaceAll c b [x]) s).
Proof.
  induction s as [|a s IH]; [done|]. cbn [map concat replaceAll].
  by rewrite app_nil_r, IH.
Qed.

Lemma escape_one x :
  replaceAll "'" "&#039;"
    (replaceAll "034" "&quot;"
       (replaceAll ">" "&gt;"
          (replaceAll "<" "&lt;"
             (replaceAll "&" "&amp;" [x])))) = escapeChar x.
Proof.
  unfold escapeChar. cbn [replaceAll].
  destruct (eqc x "&") eqn:E1; [reflexivity|].
  cbn [app replaceAll]. destruct (eqc x "<") eqn:E2; [reflexivity|].
  cbn [app replaceAll]. destruct (eqc x ">") eqn:E3; [reflexivity|].
  cbn [app replaceAll]. destruct (eqc x "034") eqn:E4; [reflexivity|].
  cbn [app replaceAll]. by destruct (eqc x "'") eqn:E5.
Qed.

(** The five replacements amount to one pass over the text. *)
Lemma escapeHtml_one_pass s : escapeHtml s = concat (map escapeChar s).
Proof.
  unfold escapeHtml. destruct s as [|a s]; [done|].
  rewrite (replaceAll_concat_id "&"). rewrite !replaceAll_concat.
  f_equal. apply map_ext. intros x. apply escape_one.
Qed.

Lemma escapeChar_safe x c : c ∈ escapeChar x -> special c = false.
Proof.
  unfold escapeChar.
  destruct (eqc x "&") eqn:E1.
  { intros H. repeat (apply elem_of_cons in H as [->|H]; [done|]). by apply elem_of_nil in H. }
  destruct (eqc x "<") eqn:E2.
  { intros H. repeat (apply elem_of_cons in H as [->|H]; [done|]). by apply elem_of_nil in H. }
  destruct (eqc x ">") eqn:E3.
  { intros H. repeat (apply elem_of_cons in H as [->|H]; [done|]). by apply elem_of_nil in H. }
  destruct (eqc x "034") eqn:E4.
  { intros H. repeat (apply elem_of_cons in H as [->|H]; [done|]). by apply elem_of_nil in H. }
  destruct (eqc x "'") eqn:E5.
  { intros H. repeat (apply elem_of_cons in H as [->|H]; [done|]). by apply elem_of_nil in H. }
  intros ->%list_elem_of_singleton. unfold special. by rewrite E2, E3, E4, E5.
Qed.

(** X2.  The text returned by escapeHtml holds none of the characters
    that close an attribute value or open or close a tag: no less-than
    sign, no greater-than sign, no double quote and no single quote. *)
Theorem escapeHtml_safe (text : jsstring) (c : ascii) :
  c ∈ escapeHtml text ->
  c <> "<"%char /\ c <> ">"%char /\ c <> "034"%char /\ c <> "'"%char.
Proof.
  rewrite escapeHtml_one_pass. intros H.
  assert (S : special c = false).
  { induction text as [|x text IH]; cbn [map concat] in H.
    - by apply elem_of_nil in H.
    - apply elem_of_app in H as [H|H]; [by eapply escapeChar_safe | auto]. }
  unfold special in S. repeat (apply orb_false_iff in S as [S ?]).
  repeat split; intros ->; done.
Qed.

Lemma escapeChar_inj x y A B :
  escapeChar x ++ A = escapeChar y ++ B -> x = y /\ A = B.
Proof.
  unfold escapeChar.
  destruct (eqc x "&") eqn:X1; [apply eqc_eq in X1 as ->|];
  [|destruct (eqc x "<") eqn:X2; [apply eqc_eq in X2 as ->|];
    [|destruct (eqc x ">") eqn:X3; [apply eqc_eq in X3 as ->|];
      [|destruct (eqc x "034") eqn:X4; [apply eqc_eq in X4 as ->|];
        [|destruct (eqc x "'") eqn:X5; [apply eqc_eq in X5 as ->|]]]]];
  (destruct (eqc y "&") eqn:Y1; [apply eqc_eq in Y1 as ->|];
   [|destruct (eqc y "<") eqn:Y2; [apply eqc_eq in Y2 as ->|];
     [|destruct (eqc y ">") eqn:Y3; [apply eqc_eq in Y3 as ->|];
       [|destruct (eqc y "034") eqn:Y4; [apply eqc_eq in Y4 as ->|];
         [|destruct (eqc y "'") eqn:Y5; [apply eqc_eq in Y5 as ->|]]]]]);
  cbn; intros H; try (by simplify_eq);
  try (injection H as -> ?; by rewrite ?eqc_refl in * ).
Qed.

(** X3.  escapeHtml loses nothing: two texts with the same escaped form
    are the same text. *)
Theorem escapeHtml_injective (a b : jsstring) :
  escapeHtml a = escapeHtml b -> a = b.
Proof.
  rewrite !escapeHtml_one_pass. revert b.
  induction a as [|x a IH]; intros [|y b]; cbn [map concat]; try done.
  - intros H. symmetry in H. apply app_eq_nil in H as [H _].
    unfold escapeChar in H. repeat (destruct (eqc _ _) in H; try done).
  - intros H. apply app_eq_nil in H as [H _].
    unfold escapeChar in H. repeat (destruct (eqc _ _) in H; try done).
  - intros H. apply escapeChar_inj in H as [-> H]. f_equal. by apply IH.
Qed.

End EscapeFacts.

Section MacroFacts.
Import Str Ui.

Lemma messagesUntil_mod m i : 0 < i -> messagesUntil m i = (- m) mod i.
Proof.
  intros H. unfold messagesUntil. pose proof (Z.div_mod (- m) i). 
  rewrite Z.mod_eq by lia. lia.
Qed.

Lemma until_zero m i : 0 <= m -> 0 < i -> (messagesUntil m i = 0 <-> Z.rem m i = 0).
Proof.
  intros Hm Hi. rewrite messagesUntil_mod by done. rewrite Z.rem_mod_nonneg by lia.
  split; intros H.
  - apply Z.mod_divide in H; [|lia]. apply Z.mod_divide; [lia|].
    destruct H as [k H]. exists (- k). lia.
  - apply Z.mod_divide in H; [|lia]. apply Z.mod_divide; [lia|].
    destruct H as [k H]. exists (- k). lia.
Qed.

Lemma not_active_text (a b : jsstring) :
  a ++ " message" ++ b ++ " until next OOC trigger" <> lit "OOC trigger active now!".
Proof.
  intros H. apply (f_equal (@rev ascii)) in H.
  rewrite !rev_app_distr in H. cbn in H. discriminate H.
Qed.

(** X4.  For a positive interval the two reminder macros agree: the
    number of messages announced by lumiaNextOOC is at least zero and
    less than the interval, the message count plus that number is a
    multiple of the interval, lumiaOOCTrigger returns the reminder exactly
    when the message count is a multiple of the interval, and lumiaNextOOC
    announces an active trigger exactly when lumiaOOCTrigger returns the
    reminder. *)
Theorem ooc_macros_agree (messageCount : nat) (interval : Z) :
  0 < interval < 2 ^ 53 ->
  let until := messagesUntil (Z.of_nat messageCount) interval in
  0 <= until < interval /\
  (Z.of_nat messageCount + until) mod interval = 0 /\
  (lumiaOOCTrigger (Some messageCount) (Some interval) = oocReminder <->
   (Z.of_nat messageCount) mod interval = 0) /\
  (lumiaNextOOC (Some messageCount) (Some interval) = lit "OOC trigger active now!" <->
   lumiaOOCTrigger (Some messageCount) (Some interval) = oocReminder).
Proof.
  intros [Hi _]. cbn zeta. set (m := Z.of_nat messageCount).
  assert (Hm : 0 <= m) by lia.
  pose proof (until_zero m interval Hm Hi) as U.
  assert (T : lumiaOOCTrigger (Some messageCount) (Some interval) = oocReminder <->
              Z.rem m interval = 0).
  { unfold lumiaOOCTrigger. fold m.
    replace (interval =? 0) with false by (symmetry; apply Z.eqb_neq; lia).
    replace (interval <=? 0) with false by (symmetry; apply Z.leb_gt; lia).
    cbn [orb]. destruct (Z.rem m interval =? 0) eqn:R.
    - apply Z.eqb_eq in R. done.
    - apply Z.eqb_neq in R. split; [discriminate | done]. }
  split; [|split; [|split]].
  - rewrite messagesUntil_mod by done. apply Z.mod_pos_bound. lia.
  - rewrite messagesUntil_mod by done.
    rewrite Z.add_mod_idemp_r by lia.
    replace (m + - m) with 0 by lia. apply Z.mod_0_l. lia.
  - rewrite T. by rewrite Z.rem_mod_nonneg by lia.
  - rewrite T, <- U. unfold lumiaNextOOC. fold m.
    replace (interval =? 0) with false by (symmetry; apply Z.eqb_neq; lia).
    replace (interval <=? 0) with false by (symmetry; apply Z.leb_gt; lia).
    cbn [orb]. destruct (messagesUntil m interval =? 0) eqn:R.
    + apply Z.eqb_eq in R. done.
    + apply Z.eqb_neq in R. split; [|done]. intros H.
      by apply not_active_text in H.
Qed.

Lemma ooc_macros_agree_witness :
  lumiaNextOOC (Some 7%nat) (Some 5) = lit "3 messages until next OOC trigger" /\
  (lumiaNextOOC (Some 10%nat) (Some 5) = lit "OOC trigger active now!" <->
   lumiaOOCTrigger (Some 10%nat) (Some 5) = oocReminder).
Proof.
  split; [reflexivity|].
  apply (ooc_macros_agree 10 5). lia.
Defined.

End MacroFacts.

Section BookName.
Import Str Ui.

Lemma lastSegment_after pre name :
  "/"%char ∉ name -> lastSegment (pre ++ "/"%char :: name) = name.
Proof.
  intros H. unfold lastSegment. rewrite rev_app_distr. cbn [rev].
  rewrite <- app_assoc. cbn [app].
  rewrite span_app.
  - cbn [fst]. apply rev_involutive.
  - rewrite forallb_rev. apply forallb_forall. intros c Hc.
    apply negb_true_iff. unfold eqc. apply bool_decide_eq_false.
    intros ->. apply H. by apply list_elem_of_In.
  - by rewrite eqc_refl.
Qed.

Lemma lastSegment_whole url : "/"%char ∉ url -> lastSegment url = url.
Proof.
  intros H. unfold lastSegment.
  assert (S : forall s, forallb (fun c => negb (eqc c "/")) s = true ->
                        span (fun c => negb (eqc c "/")) s = (s, [])).
  { induction s as [|c s IH]; [done|]. cbn [forallb span].
    intros [-> Hs]%andb_true_iff. by rewrite IH. }
  rewrite S.
  - apply rev_involutive.
  - rewrite forallb_rev. apply forallb_forall. intros c Hc.
    apply negb_true_iff. unfold eqc. apply bool_decide_eq_false.
    intros ->. apply H. by apply list_elem_of_In.
Qed.

(** X5.  The pack name that fetchWorldBook derives from a URL is the text
    after the last slash; a URL without a slash and a URL that ends in a
    slash are their own pack names. *)
Theorem bookName_spec :
  (forall pre name,
     name <> [] -> "/"%char ∉ name -> bookName (pre ++ "/"%char :: name) = name) /\
  (forall url, "/"%char ∉ url -> bookName url = url) /\
  (forall pre, bookName (pre ++ ["/"%char]) = pre ++ ["/"%char]).
Proof.
  split; [|split].
  - intros pre name N H. unfold bookName. rewrite lastSegment_after by done.
    by destruct name.
  - intros url H. unfold bookName. rewrite lastSegment_whole by done. by destruct url.
  - intros pre. unfold bookName. rewrite lastSegment_after by apply not_elem_of_nil.
    done.
Qed.

Lemma bookName_spec_witness :
  bookName "https://host/books/lumia.json" = lit "lumia.json".
Proof.
  apply (proj1 bookName_spec "https://host/books" "lumia.json"); [done|].
  apply (bool_decide_unpack _). by vm_compute.
Defined.

End BookName.

Section Converters.
Import Str Script More.

Lemma or_null_settled a b : settled (Js.or (Js.or a b) VNull).
Proof.
  unfold settled, Js.or. destruct (Js.truthy a) eqn:A.
  - rewrite A. by right.
  - destruct (Js.truthy b) eqn:B; [by right | by left].
Qed.

Lemma or1_settled a : settled (Js.or a VNull).
Proof.
  unfold settled, Js.or. destruct (Js.truthy a) eqn:A; [by right | by left].
Qed.

Lemma or_fix v : settled v -> Js.or (Js.or VUndef v) VNull = v.
Proof.
  intros [->| H]; [done|]. unfold Js.or. cbn. by rewrite H.
Qed.

Lemma or1_fix v : settled v -> Js.or v VNull = v.
Proof.
  intros [->| H]; [done|]. unfold Js.or. by rewrite H.
Qed.

Lemma nullish_fix a b : nullish (nullish a (VNum b)) (VNum b) = nullish a (VNum b).
Proof. by destruct a. Qed.

(** X6.  convertLumiaItem and convertLoomItem are idempotent: an item
    that is already in the new format is converted to itself, in every
    field. *)
Theorem converters_idempotent (oldItem : value) :
  convertLumiaItem (convertLumiaItem oldItem) = convertLumiaItem oldItem /\
  convertLoomItem (convertLoomItem oldItem) = convertLoomItem oldItem.
Proof.
  split.
  - unfold convertLumiaItem at 1. unfold prop.
    set (y := convertLumiaItem oldItem).
    change (Js.get_opt y "lumiaDefName") with VUndef.
    change (Js.get_opt y "lumiaDef") with VUndef.
    change (Js.get_opt y "lumia_personality") with VUndef.
    change (Js.get_opt y "lumia_behavior") with VUndef.
    change (Js.get_opt y "lumia_img") with VUndef.
    change (Js.get_opt y "defAuthor") with VUndef.
    change (Js.get_opt y "lumiaName")
      with (Js.or (prop oldItem "lumiaDefName") (prop oldItem "lumiaName")).
    change (Js.get_opt y "lumiaDefinition")
      with (Js.or (Js.or (prop oldItem "lumiaDef") (prop oldItem "lumiaDefinition")) VNull).
    change (Js.get_opt y "lumiaPersonality")
      with (Js.or (Js.or (prop oldItem "lumia_personality") (prop oldItem "lumiaPersonality")) VNull).
    change (Js.get_opt y "lumiaBehavior")
      with (Js.or (Js.or (prop oldItem "lumia_behavior") (prop oldItem "lumiaBehavior")) VNull).
    change (Js.get_opt y "avatarUrl")
      with (Js.or (Js.or (prop oldItem "lumia_img") (prop oldItem "avatarUrl")) VNull).
    change (Js.get_opt y "genderIdentity")
      with (nullish (prop oldItem "genderIdentity") (VNum SHE_HER)).
    change (Js.get_opt y "authorName")
      with (Js.or (Js.or (prop oldItem "defAuthor") (prop oldItem "authorName")) VNull).
    rewrite !or_fix by apply or_null_settled. rewrite nullish_fix.
    unfold y, convertLumiaItem. repeat f_equal.
  - unfold convertLoomItem at 1. unfold prop.
    set (y := convertLoomItem oldItem).
    change (Js.get_opt y "loomName") with (prop oldItem "loomName").
    change (Js.get_opt y "loomContent") with (prop oldItem "loomContent").
    change (Js.get_opt y "loomCategory") with (prop oldItem "loomCategory").
    change (Js.get_opt y "authorName") with (Js.or (prop oldItem "authorName") VNull).
    rewrite or1_fix by apply or1_settled. done.
Qed.
End Converters.

Section Items.
Import Str Script More.

Lemma convertItems_spec items : forall lumiaItems loomItems,
  Forall (fun i => nonNullish i = true) items ->
  convertItems items lumiaItems loomItems =
  Ok (lumiaItems ++ map convertLumiaItem (List.filter isLumiaItem items),
      loomItems ++ map convertLoomItem (List.filter isLoomItem items)).
Proof.
  induction items as [|i items IH]; intros a b H.
  - cbn. by rewrite !app_nil_r.
  - apply Forall_cons in H as [Hi H]. cbn [convertItems List.filter].
    assert (G : forall k, Js.get i k = Ok (Js.get_opt i k)) by (by destruct i).
    rewrite !G. cbn [mbind result_bind]. unfold isLoomItem, isLumiaItem.
    destruct (Js.truthy (Js.or (Js.get_opt i "lumiaDefName") (Js.get_opt i "lumiaName"))) eqn:L.
    + cbn [negb andb map]. rewrite IH by done. by rewrite <- app_assoc.
    + rewrite ?G. cbn [mbind result_bind negb andb].
      destruct (Js.truthy (Js.get_opt i "loomCategory")) eqn:C.
      * cbn [map]. rewrite IH by done. by rewrite <- app_assoc.
      * by rewrite IH.
Qed.

Lemma convertItems_null items : forall lumiaItems loomItems,
  Exists (fun i => nonNullish i = false) items ->
  convertItems items lumiaItems loomItems = Throw TypeError.
Proof.
  induction items as [|i items IH]; intros a b H; [by apply Exists_nil in H|].
  cbn [convertItems]. destruct (nonNullish i) eqn:N.
  - apply Exists_cons in H as [H|H]; [congruence|].
    assert (G : forall k, Js.get i k = Ok (Js.get_opt i k)) by (by destruct i).
    rewrite !G. cbn [mbind result_bind].
    destruct (Js.truthy _); [by apply IH|]. rewrite ?G. cbn [mbind result_bind].
    destruct (Js.truthy _); by apply IH.
  - by destruct i.
Qed.

(** X7.  For a payload in the old internal format (not canonical, no
    entries, an items array) convertPack returns the pack whose Lumia
    items are the conversions of the items with a lumiaDefName or
    lumiaName, and whose Loom items are the conversions of the other
    items with a loomCategory, both in the order of the input; items of
    neither kind are dropped, and an item that is null or undefined makes
    the conversion fail with a type error. *)
Theorem old_pack_items (inputData : value) (sourceName : jsstring) (items : list value) :
  Props.nullish inputData = false ->
  Props.canonical inputData = false ->
  Props.entryCollection inputData = false ->
  Js.get_opt inputData "items" = VArr items ->
  (Forall (fun i => nonNullish i = true) items ->
   convertPack inputData sourceName =
   Ok (legacyPack inputData sourceName
         (map convertLumiaItem (List.filter isLumiaItem items))
         (map convertLoomItem (List.filter isLoomItem items)))) /\
  (Exists (fun i => nonNullish i = false) items ->
   convertPack inputData sourceName = Throw TypeError).
Proof.
  intros N C E I. unfold convertPack.
  rewrite !get_not_nullish by done. cbn [mbind result_bind].
  unfold Props.canonical in C. unfold Props.entryCollection in E. rewrite C, E, I.
  split; intros H.
  - by rewrite convertItems_spec.
  - by rewrite convertItems_null.
Qed.

Lemma old_pack_items_witness :
  convertPack exampleOldPack "file" =
  Ok (legacyPack exampleOldPack "file"
        [convertLumiaItem (VObj [(lit "lumiaDefName", VStr "Aria")])]
        [convertLoomItem (VObj [(lit "loomName", VStr "Gothic");
                                (lit "loomCategory", VStr "Narrative Style")])]).
Proof.
  apply (proj1 (old_pack_items exampleOldPack "file" _ eq_refl eq_refl eq_refl eq_refl)).
  repeat constructor.
Defined.

End Items.

Section Aggregation.
Import Str Script Props More.

Lemma fragmentOf_not_loom e f : fragmentOf e = Some f -> loomOf e = None.
Proof.
  unfold fragmentOf, loomOf, loomHeading.
  destruct (entryText e) as [[content comment]|]; [|done].
  destruct (categoryMatch comment) as [g|]; [|done].
  by destruct (isLoomCategory (trim g)).
Qed.

Lemma step_looms m looms e :
  rawEntry e = true ->
  exists m', step (m, looms) e = Ok (m', looms ++ option_list (loomOf e)).
Proof.
  intros R. destruct (fragmentOf e) as [[[n t] c]|] eqn:F.
  - rewrite (step_fragment _ _ _ _ _ _ F), (fragmentOf_not_loom _ _ F).
    cbn. rewrite app_nil_r. eauto.
  - revert R F. unfold rawEntry, commentOf, fragmentOf, loomOf, entryText, loomHeading.
    intros R F.
    destruct e as [| | | | |l|fs]; try discriminate;
      try (cbn; rewrite app_nil_r; by eexists).
    unfold step. cbn [Js.get mbind result_bind].
    destruct (Js.or (Js.lookup "comment" fs) (VStr [])) as [| | | |s| |] eqn:Ecm;
      try discriminate.
    destruct (Js.lookup "content" fs) as [| | | |[|ch cs]| |] eqn:Ec;
      try (cbn; rewrite app_nil_r; by eexists).
    cbn [call_trim mbind result_bind].
    destruct (categoryMatch (trim s)) as [g|] eqn:Ecat.
    + destruct (isLoomCategory (trim g)).
      * destruct (loomNameMatch (trim s)); cbn; [by eexists|].
        rewrite app_nil_r. by eexists.
      * destruct (Re.nameMatch (trim s)); [discriminate|].
        cbn. rewrite app_nil_r. by eexists.
    + destruct (Re.nameMatch (trim s)); [discriminate|].
      cbn. rewrite app_nil_r. by eexists.
Qed.

Lemma omap_cons_list {A B} (f : A -> option B) x l :
  omap f (x :: l) = option_list (f x) ++ omap f l.
Proof. cbn. by destruct (f x). Qed.

Lemma loop_looms es : forall m looms,
  Forall (fun e => rawEntry e = true) es ->
  exists m', loop es (m, looms) = Ok (m', looms ++ omap loomOf es).
Proof.
  induction es as [|e es IH]; intros m looms R.
  - cbn. rewrite app_nil_r. eauto.
  - apply Forall_cons in R as [Re R]. cbn [loop].
    destruct (step_looms m looms e Re) as [m1 ->]. cbn [mbind result_bind].
    destruct (IH m1 (looms ++ option_list (loomOf e)) R) as [m2 ->].
    exists m2. by rewrite omap_cons_list, app_assoc.
Qed.

Lemma step_lookup m looms e m' looms' :
  rawEntry e = true -> step (m, looms) e = Ok (m', looms') ->
  forall n,
    lookupOrNew n m' =
    foldl (fun l f => applyEntry (fst f) (snd f) l) (lookupOrNew n m)
      (fragmentsOf n [e]).
Proof.
  intros R S n. unfold fragmentsOf. cbn [omap list_omap].
  destruct (fragmentOf e) as [[[n0 t] c]|] eqn:F.
  - rewrite (step_fragment _ _ _ _ _ _ F) in S. injection S as <- _.
    destruct (eqb n0 n) eqn:E.
    + apply eqb_eq in E as ->. cbn [foldl fst snd]. unfold lookupOrNew at 1.
      by rewrite map_get_set_eq.
    + apply eqb_neq in E. cbn [foldl]. unfold lookupOrNew.
      rewrite map_get_set_ne; [done | congruence].
  - destruct (step_no_fragment m looms e R F) as [looms1 S1].
    rewrite S1 in S. by injection S as <- _.
Qed.

Lemma fragmentsOf_cons n e es :
  fragmentsOf n (e :: es) = fragmentsOf n [e] ++ fragmentsOf n es.
Proof.
  unfold fragmentsOf. cbn [omap list_omap].
  by destruct (match fragmentOf e with Some _ => _ | None => _ end).
Qed.

Lemma loop_lookup es : forall m looms m' looms',
  Forall (fun e => rawEntry e = true) es ->
  loop es (m, looms) = Ok (m', looms') ->
  forall n,
    lookupOrNew n m' =
    foldl (fun l f => applyEntry (fst f) (snd f) l) (lookupOrNew n m)
      (fragmentsOf n es).
Proof.
  induction es as [|e es IH]; intros m looms m' looms' R L n.
  - cbn in L. by injection L as <- _.
  - apply Forall_cons in R as [Re R]. cbn [loop] in L.
    destruct (step (m, looms) e) as [[m1 looms1]|] eqn:S; [|done].
    cbn [mbind result_bind] in L.
    rewrite fragmentsOf_cons, foldl_app.
    rewrite <- (step_lookup _ _ _ _ _ Re S n). by eapply IH.
Qed.

Lemma values_by_key (m : lumiaMap) :
  NoDup (map fst m) -> map snd m = map (fun k => lookupOrNew k m) (map fst m).
Proof.
  induction m as [|[k l] m IH]; [done|]. cbn [map fst snd].
  intros [Hk ND]%NoDup_cons. f_equal.
  - unfold lookupOrNew. cbn [map_get]. by rewrite eqb_refl.
  - rewrite IH by done. apply map_ext_in. intros k' Hin.
    unfold lookupOrNew. cbn [map_get].
    destruct (eqb k' k) eqn:E; [|done]. apply eqb_eq in E as ->.
    destruct Hk. by apply list_elem_of_In.
Qed.

(** X8.  On raw entries processWorldBook of the script returns: one
    Lumia item per distinct fragment name, in first-seen order, each the
    result of applying the fragments of its name, in the order of the
    entries, to a fresh item; and one Loom item per entry under a Loom
    heading with a name, in the order of the entries. *)
Theorem processWorldBook_items (data : value) (entries : list value) :
  entriesOf data = Some entries ->
  Forall (fun e => rawEntry e = true) entries ->
  processWorldBook data =
  Ok (map (fun n => build n (fragmentsOf n entries))
        (first_seen (omap fragmentName entries)),
      omap loomOf entries).
Proof.
  intros E R. destruct (loop_first_seen entries R) as (m & looms & L & N & K).
  destruct (loop_looms entries [] [] R) as [m' L']. unfold lumiaMap in L'.
  rewrite L in L'. injection L' as <- ->.
  unfold processWorldBook. rewrite E, L. cbn [mbind result_bind app].
  do 2 f_equal. rewrite values_by_key by (rewrite K; apply first_seen_NoDup).
  rewrite K. apply map_ext. intros n.
  by rewrite (loop_lookup entries [] [] m _ R L n).
Qed.

Lemma processWorldBook_items_witness :
  processWorldBook (VArr exampleEntries) =
  Ok (map (fun n => build n (fragmentsOf n exampleEntries))
        (first_seen (omap fragmentName exampleEntries)),
      omap loomOf exampleEntries).
Proof.
  apply (processWorldBook_items (VArr exampleEntries) exampleEntries).
  - reflexivity.
  - repeat constructor.
Defined.

End Aggregation.

Section MigrationOnce.
Import Str Legacy Props.

Lemma ensureDefaults_idem s : ensureDefaults (ensureDefaults s) = ensureDefaults s.
Proof.
  unfold ensureDefaults. cbn [packs selectedDefinition selectedBehaviors
    selectedPersonalities lumiaOOCInterval lumiaLibrary worldBookData worldBookUrl].
  f_equal.
  - by destruct (Js.truthy (selectedBehaviors s)) eqn:E; [rewrite E|].
  - by destruct (Js.truthy (selectedPersonalities s)) eqn:E; [rewrite E|].
  - by destruct (lumiaOOCInterval s).
Qed.

Lemma guard_ensureDefaults s : guard (ensureDefaults s) = guard s.
Proof. done. Qed.

Lemma legacyItems_ensureDefaults s : legacyItems (ensureDefaults s) = legacyItems s.
Proof. done. Qed.

(** X9.  The migration is a one-shot: on the settings that a run of
    migrateSettings leaves behind, a second run reports no migration and
    changes nothing. *)
Theorem migrateSettings_once (s s' : Settings) (migrated : bool) :
  migrateSettings s = Ok (migrated, s') ->
  migrateSettings s' = Ok (false, s').
Proof.
  unfold migrateSettings at 1. destruct (guard s) eqn:G.
  - destruct (legacyItems s) as [items|] eqn:L; cbn [mbind result_bind]; [|done].
    destruct (0 <? length items)%nat eqn:N; cbn [mbind result_bind].
    + intros [= <- <-]. unfold migrateSettings.
      assert (G' : forall x, guard (ensureDefaults x) = guard x) by done.
      rewrite G'. unfold guard at 1. cbn [packs].
      rewrite (bool_decide_eq_false_2 _ (insert_non_empty _ _ _)), andb_false_r.
      cbn [mbind result_bind]. by rewrite ensureDefaults_idem.
    + intros [= <- <-]. unfold migrateSettings.
      rewrite guard_ensureDefaults, G, legacyItems_ensureDefaults, L.
      cbn [mbind result_bind]. rewrite N. cbn [mbind result_bind].
      by rewrite ensureDefaults_idem.
  - cbn [mbind result_bind]. intros [= <- <-]. unfold migrateSettings.
    rewrite guard_ensureDefaults, G. cbn [mbind result_bind].
    by rewrite ensureDefaults_idem.
Qed.

Lemma migrateSettings_once_witness :
  exists s',
    migrateSettings exampleSettings = Ok (true, s') /\
    migrateSettings s' = Ok (false, s').
Proof.
  eexists. split; [reflexivity|].
  apply (migrateSettings_once exampleSettings _ true). reflexivity.
Defined.

End MigrationOnce.

Section Lookup.
Import Str Legacy Props Ui More.

Lemma get_nonNullish v k : nonNullish v = true -> Js.get v k = Ok (Js.get_opt v k).
Proof. by destruct v. Qed.

Lemma find_item_find name items :
  Forall (fun i => nonNullish i = true) items ->
  find_item name items = Ok (default VUndef (List.find (hasName name) items)).
Proof.
  induction 1 as [|i items Hi _ IH]; [done|]. cbn [find_item List.find].
  rewrite (get_nonNullish _ _ Hi). cbn [mbind result_bind]. unfold hasName at 1.
  by destruct (Js.is_str name (Js.get_opt i "lumiaDefName")).
Qed.

Lemma find_item_first name pre item post :
  Forall (fun i => nonNullish i = true) pre ->
  hasName name item = true ->
  exists found,
    find_item name (pre ++ item :: post) = Ok found /\
    found ∈ pre ++ [item] /\ hasName name found = true /\
    (Forall (fun p => hasName name p = false) pre -> found = item).
Proof.
  intros Hpre Hitem. induction Hpre as [|p pre Hp _ IH]; cbn [app find_item].
  - assert (N : nonNullish item = true).
    { unfold hasName in Hitem. by destruct item. }
    rewrite (get_nonNullish _ _ N). cbn [mbind result_bind].
    unfold hasName in Hitem. rewrite Hitem. exists item.
    split; [done|]. split; [left|]. done.
  - rewrite (get_nonNullish _ _ Hp). cbn [mbind result_bind].
    destruct (Js.is_str name (Js.get_opt p "lumiaDefName")) eqn:E.
    + exists p. split; [done|]. split; [left|]. split; [done|].
      intros F. apply Forall_cons in F as [F _]. unfold hasName in F. congruence.
    + destruct IH as (found & F1 & F2 & F3 & F4). exists found.
      split; [done|]. split; [by right|]. split; [done|].
      intros F. apply Forall_cons in F as [_ F]. auto.
Qed.

Lemma lookup_legacy_pack (m : gmap jsstring value) v :
  <[Legacy.packName := v]> m !! Legacy.packName = Some v.
Proof. apply lookup_insert_eq. Qed.

(** X10.  A legacy definition index survives the migration as a
    reference that resolves: when the item at the selected index has a
    name, the migrated selection names the legacy pack and that name, and
    getItemFromLibrary finds for it an item of the legacy pack with that
    name, the first one in the list; it is the item that was selected
    when no earlier item has the same name. *)
Theorem migrated_definition_resolves (s : Settings) (pre post : list value)
    (item : value) (name : jsstring) :
  guard s = true ->
  lumiaLibrary s = Some (pre ++ item :: post) ->
  selectedDefinition s = VNum (Z.of_nat (length pre)) ->
  Forall (fun i => nonNullish i = true) pre ->
  Js.get_opt item "lumiaDefName" = VStr name -> name <> [] ->
  exists s' found,
    migrateSettings s = Ok (true, s') /\
    selectedDefinition s' = ref Legacy.packName name /\
    getItemFromLibrary s' Legacy.packName name = Ok found /\
    found ∈ pre ++ [item] /\
    Js.get_opt found "lumiaDefName" = VStr name /\
    (Forall (fun p => Js.get_opt p "lumiaDefName" <> VStr name) pre -> found = item).
Proof.
  intros G L D Hpre Hn Hne.
  assert (LI : legacyItems s = Ok (pre ++ item :: post)).
  { unfold legacyItems. rewrite L. by destruct pre. }
  assert (NE : pre ++ item :: post <> []) by (by destruct pre).
  assert (HI : hasName name item = true).
  { unfold hasName. rewrite Hn. cbn. apply eqb_refl. }
  destruct (find_item_first name pre item post Hpre HI) as (found & F1 & F2 & F3 & F4).
  eexists _, found. split; [by apply migrateSettings_run|].
  cbn [selectedDefinition]. split.
  - rewrite D. cbn [migrateDefinition]. rewrite migrate_index. unfold resolve.
    assert (B : (0 <=? Z.of_nat (length pre)) &&
                (Z.of_nat (length pre) <? Z.of_nat (length (pre ++ item :: post))) = true).
    { rewrite length_app. cbn [length]. apply andb_true_iff. split.
      - apply Z.leb_le. lia.
      - apply Z.ltb_lt. lia. }
    rewrite B, Nat2Z.id, list_lookup_middle by done. cbn [default id]. rewrite Hn.
    destruct name; [done|]. done.
  - split.
    { unfold getItemFromLibrary. cbn [packs]. rewrite lookup_legacy_pack.
      cbn [Js.truthy Js.get mbind result_bind]. exact F1. }
    split; [done|]. split.
    { unfold hasName in F3. destruct (Js.get_opt found "lumiaDefName"); try done.
      cbn in F3. by apply eqb_eq in F3 as ->. }
    intros F. apply F4. eapply Forall_impl; [exact F|]. intros p Hp. cbn beta in Hp.
    unfold hasName. destruct (Js.get_opt p "lumiaDefName"); try done.
    cbn. apply eqb_neq. congruence.
Qed.

End Lookup.

Section Selections.
Import Str Legacy Props Ui More.

Lemma filter_other_filter p l :
  Forall (fun r => nonNullish r = true) l ->
  filter_other p l = Ok (List.filter (fun r => negb (refersTo p r)) l).
Proof.
  induction 1 as [|r l Hr _ IH]; [done|]. cbn [filter_other List.filter].
  rewrite (get_nonNullish _ _ Hr), IH. cbn [mbind result_bind]. unfold refersTo.
  by destruct (Js.is_str p (Js.get_opt r "packName")).
Qed.

(** X11.  Removing a pack leaves no reference to it behind: the pack is
    gone and no look-up finds an item in it, every other pack is
    untouched, the two multi-selections keep exactly their references to
    other packs, in order, and the selected definition is set to null when
    it named the pack and kept otherwise. *)
Theorem removePack_cascade (s : Settings) (p : jsstring) (bs ps : list value) :
  selectedBehaviors s = VArr bs -> selectedPersonalities s = VArr ps ->
  Forall (fun r => nonNullish r = true) bs ->
  Forall (fun r => nonNullish r = true) ps ->
  exists s',
    removePack s p = Ok s' /\
    packs s' !! p = None /\
    (forall q, q <> p -> packs s' !! q = packs s !! q) /\
    (protoKey p = false -> forall i, getItemFromLibrary s' p i = Ok VNull) /\
    selectedBehaviors s' = VArr (List.filter (fun r => negb (refersTo p r)) bs) /\
    selectedPersonalities s' = VArr (List.filter (fun r => negb (refersTo p r)) ps) /\
    refersTo p (selectedDefinition s') = false /\
    (refersTo p (selectedDefinition s) = true -> selectedDefinition s' = VNull) /\
    (refersTo p (selectedDefinition s) = false ->
     selectedDefinition s' = selectedDefinition s).
Proof.
  intros B P Hb Hp. unfold removePack. rewrite B, P. cbn [call_filter_other].
  rewrite (filter_other_filter _ _ Hb), (filter_other_filter _ _ Hp).
  cbn [mbind result_bind]. eexists. split; [done|].
  cbn [packs selectedDefinition selectedBehaviors selectedPersonalities].
  split; [apply lookup_delete_eq|].
  split; [by intros q Hq; apply lookup_delete_ne|].
  split.
  { intros K i. unfold getItemFromLibrary. cbn [packs].
    by rewrite lookup_delete_eq, K. }
  split; [done|]. split; [done|]. unfold refersTo. split.
  - destruct (Js.truthy (selectedDefinition s)) eqn:T; cbn [andb].
    + by destruct (Js.is_str p (Js.get_opt (selectedDefinition s) "packName")) eqn:E.
    + by destruct (selectedDefinition s).
  - split.
    + intros E. rewrite E, andb_true_r.
      by destruct (selectedDefinition s).
    + intros ->. by rewrite andb_false_r.
Qed.

Lemma is_ref_matches p i r :
  nonNullish r = true -> is_ref p i r = Ok (matches p i r).
Proof.
  intros N. unfold is_ref, matches.
  rewrite (get_nonNullish r "packName" N), (get_nonNullish r "itemName" N).
  cbn [mbind result_bind].
  by destruct (Js.is_str p (Js.get_opt r "packName")).
Qed.

Lemma toggle_in_absent p i l :
  Forall (fun r => nonNullish r = true) l ->
  Forall (fun r => matches p i r = false) l ->
  toggle_in p i l = Ok (l ++ [ref p i]).
Proof.
  induction 1 as [|r l Hr _ IH]; intros M; [done|].
  apply Forall_cons in M as [Mr M]. cbn [toggle_in app].
  by rewrite (is_ref_matches _ _ _ Hr), Mr, (IH M).
Qed.

Lemma toggle_in_present p i pre r post :
  Forall (fun r => nonNullish r = true) pre ->
  Forall (fun r => matches p i r = false) pre ->
  matches p i r = true ->
  toggle_in p i (pre ++ r :: post) = Ok (pre ++ post).
Proof.
  induction 1 as [|x pre Hx _ IH]; intros M Mr.
  - cbn [toggle_in app].
    assert (N : nonNullish r = true).
    { unfold matches in Mr. by destruct r. }
    by rewrite (is_ref_matches _ _ _ N), Mr.
  - apply Forall_cons in M as [Mx M]. cbn [toggle_in app].
    by rewrite (is_ref_matches _ _ _ Hx), Mx, (IH M Mr).
Qed.

Lemma matches_ref p i : matches p i (ref p i) = true.
Proof.
  unfold matches.
  change (Js.get_opt (ref p i) "packName") with (VStr p).
  change (Js.get_opt (ref p i) "itemName") with (VStr i).
  cbn [Js.is_str]. by rewrite !eqb_refl.
Qed.

(** X12.  A click on an item of a multi-selection toggles it: a
    reference that is not in the collection is appended, the first
    matching reference is removed when there is one, and two clicks on an
    item that was not selected give the collection back. *)
Theorem toggleSelection_spec (p i : jsstring) (pre : list value) :
  Forall (fun r => nonNullish r = true) pre ->
  Forall (fun r => matches p i r = false) pre ->
  toggleSelection (VArr pre) p i = Ok (VArr (pre ++ [ref p i])) /\
  (forall r post, matches p i r = true ->
     toggleSelection (VArr (pre ++ r :: post)) p i = Ok (VArr (pre ++ post))) /\
  (v ← toggleSelection (VArr pre) p i; toggleSelection v p i) = Ok (VArr pre).
Proof.
  intros N M. unfold toggleSelection.
  assert (A := toggle_in_absent p i pre N M).
  assert (P := fun r post => toggle_in_present p i pre r post N M).
  split; [by rewrite A|]. split.
  - intros r post Mr. by rewrite (P r post Mr).
  - rewrite A. cbn [mbind result_bind].
    rewrite (P (ref p i) [] (matches_ref p i)). cbn [mbind result_bind].
    by rewrite app_nil_r.
Qed.

Lemma toggleSelection_spec_witness :
  toggleSelection (VArr [ref "Book" "Aria"]) "Book" "Bo" =
    Ok (VArr ([ref "Book" "Aria"] ++ [ref "Book" "Bo"])) /\
  (v ← toggleSelection (VArr [ref "Book" "Aria"]) "Book" "Bo";
   toggleSelection v "Book" "Bo") = Ok (VArr [ref "Book" "Aria"]).
Proof.
  destruct (toggleSelection_spec "Book" "Bo" [ref "Book" "Aria"]) as (A & _ & B).
  - repeat constructor.
  - repeat constructor.
  - split; [exact A | exact B].
Defined.

Lemma mapM_app {A B} (f : A -> result B) l1 l2 :
  mapM f (l1 ++ l2) = (a ← mapM f l1; b ← mapM f l2; Ok (a ++ b)).
Proof.
  induction l1 as [|x l1 IH]; cbn [app mapM mbind result_bind].
  - by destruct (mapM f l2).
  - destruct (f x); cbn [mbind result_bind]; [|done]. rewrite IH.
    destruct (mapM f l1); cbn [mbind result_bind]; [|done].
    by destruct (mapM f l2).
Qed.

Lemma trimmedTexts_falsy l1 v l2 :
  Js.truthy v = false -> trimmedTexts (l1 ++ v :: l2) = trimmedTexts (l1 ++ l2).
Proof.
  intros F. induction l1 as [|x l1 IH]; cbn [app trimmedTexts].
  - by rewrite F.
  - by rewrite IH.
Qed.

Lemma refContent_dangling s type r v :
  getItemFromLibrary s (Ui.packName r) (itemName r) = Ok v -> Js.truthy v = false ->
  refContent s type r = Ok (VStr []).
Proof. intros G T. unfold refContent. rewrite G. cbn [mbind result_bind]. by rewrite T. Qed.

(** X13.  A reference that resolves to no item contributes nothing to
    the text of getLumiaContent: the result is the one of the selection
    without it. *)
Theorem dangling_reference_ignored (s : Settings) (type : jsstring)
    (sel1 sel2 : list Ref) (r : Ref) (v : value) :
  getItemFromLibrary s (Ui.packName r) (itemName r) = Ok v -> Js.truthy v = false ->
  getLumiaContentMulti s type (sel1 ++ r :: sel2) =
  getLumiaContentMulti s type (sel1 ++ sel2).
Proof.
  intros G T. unfold getLumiaContentMulti. rewrite !mapM_app.
  cbn [mapM]. rewrite (refContent_dangling s type r v G T).
  destruct (mapM (refContent s type) sel1) as [m1|]; cbn [mbind result_bind]; [|done].
  destruct (mapM (refContent s type) sel2) as [m2|]; cbn [mbind result_bind]; [|done].
  by rewrite trimmedTexts_falsy.
Qed.

End Selections.

Section LegacyLoop.
Import Str Props More.

Lemma legacyName_fragment e :
  legacyName e = (fun f => fst (fst f)) <$> legacyFragmentOf e.
Proof.
  unfold legacyName, legacyFragmentOf.
  destruct (entryText e) as [[content comment]|]; [|done].
  by destruct (Re.nameMatch comment).
Qed.

Lemma legacy_get_set_eq name l m :
  Legacy.map_get name (Legacy.map_set name l m) = Some l.
Proof.
  induction m as [|[k l'] m IH]; simpl.
  - by rewrite eqb_refl.
  - destruct (eqb name k) eqn:E; simpl; rewrite E; auto.
Qed.

Lemma legacy_set_set name l l' m :
  Legacy.map_set name l (Legacy.map_set name l' m) = Legacy.map_set name l m.
Proof.
  induction m as [|[k l0] m IH]; simpl.
  - by rewrite eqb_refl.
  - destruct (eqb name k) eqn:E; simpl; rewrite E; auto.
    by rewrite IH.
Qed.

Lemma legacy_get_set_ne n n' l m :
  n <> n' -> Legacy.map_get n (Legacy.map_set n' l m) = Legacy.map_get n m.
Proof.
  intros Hn. induction m as [|[k l'] m IH]; cbn [Legacy.map_set Legacy.map_get].
  - by rewrite (proj2 (eqb_neq n n')).
  - destruct (eqb n' k) eqn:E; cbn [Legacy.map_get].
    + apply eqb_eq in E as <-. by rewrite (proj2 (eqb_neq n n')).
    + by rewrite IH.
Qed.

Lemma legacy_set_keys name l (m : list (jsstring * Legacy.Lumia)) :
  map fst (Legacy.map_set name l m) = add_name (map fst m) name.
Proof.
  unfold add_name. induction m as [|[k l'] m IH].
  - done.
  - cbn [Legacy.map_set]. destruct (eqb name k) eqn:E.
    + apply eqb_eq in E as ->. cbn [map fst].
      rewrite bool_decide_eq_true_2; [done | left].
    + apply eqb_neq in E. cbn [map fst]. rewrite IH.
      destruct (decide (name ∈ map fst m)) as [H|H].
      * rewrite !bool_decide_eq_true_2; [done | by right | done].
      * rewrite !bool_decide_eq_false_2; [done | | done].
        rewrite not_elem_of_cons. tauto.
Qed.

Lemma legacy_applyEntry_name t c l :
  Legacy.lumiaDefName (Legacy.applyEntry t c l) = Legacy.lumiaDefName l.
Proof.
  destruct t as [[| |]|]; cbn [Legacy.applyEntry]; try done.
  - destruct (Script.set_if (Legacy.image (Legacy.extractMetadata c))),
      (Script.set_if (Legacy.author (Legacy.extractMetadata c))); done.
  - destruct (Re.behaviorMatch c) as [g|];
      [destruct (Script.unset (Legacy.lumia_behavior l))|];
      destruct (Re.personalityMatch c); done.
Qed.

Lemma legacy_named_set n l m :
  legacyNamed m -> Legacy.lumiaDefName l = n -> legacyNamed (Legacy.map_set n l m).
Proof.
  intros Hm Hl. induction Hm as [|[k l'] m H Hm IH]; cbn [Legacy.map_set].
  - by repeat constructor.
  - destruct (eqb n k) eqn:E.
    + apply eqb_eq in E as <-. by constructor.
    + by constructor.
Qed.

Lemma legacy_named_get n l m :
  legacyNamed m -> Legacy.map_get n m = Some l -> Legacy.lumiaDefName l = n.
Proof.
  induction 1 as [|[k l'] m H _ IH]; cbn [Legacy.map_get]; [done|].
  destruct (eqb n k) eqn:E; [|done].
  apply eqb_eq in E as <-. by intros [= <-].
Qed.

Lemma legacy_step_fragment m e n t c :
  legacyFragmentOf e = Some (n, t, c) ->
  Legacy.step m e =
  Ok (Legacy.map_set n
        (Legacy.applyEntry t c (default (Legacy.newLumia n) (Legacy.map_get n m))) m).
Proof.
  unfold legacyFragmentOf, entryText. intros H.
  destruct e as [| | | | |l|fs]; try discriminate.
  unfold Legacy.step. cbn [Js.get mbind result_bind].
  destruct (Js.lookup "content" fs) as [| | | |[|ch cs]| |] eqn:Ec; try discriminate.
  cbn [Js.get_opt] in H.
  destruct (Js.or (Js.lookup "comment" fs) (VStr [])) as [| | | |s| |] eqn:Ecm;
    try discriminate.
  cbn [Script.call_trim mbind result_bind].
  destruct (Re.nameMatch (trim s)) as [g'|]; [|discriminate].
  injection H as <- <- <-.
  destruct (Legacy.map_get (trim g') m) eqn:Eg; cbn [default]; [done|].
  by rewrite legacy_set_set.
Qed.

Lemma legacy_step_no_fragment m e :
  rawEntry e = true -> legacyFragmentOf e = None -> Legacy.step m e = Ok m.
Proof.
  unfold rawEntry, commentOf, legacyFragmentOf, entryText. intros R H.
  destruct e as [| | | | |l|fs]; try discriminate; try done.
  unfold Legacy.step. cbn [Js.get mbind result_bind].
  destruct (Js.or (Js.lookup "comment" fs) (VStr [])) as [| | | |s| |] eqn:Ecm;
    try discriminate.
  destruct (Js.lookup "content" fs) as [| | | |[|ch cs]| |] eqn:Ec; try done.
  cbn [Script.call_trim mbind result_bind].
  by destruct (Re.nameMatch (trim s)).
Qed.

Lemma legacyFragmentsOf_cons n e es :
  legacyFragmentsOf n (e :: es) = legacyFragmentsOf n [e] ++ legacyFragmentsOf n es.
Proof.
  unfold legacyFragmentsOf. cbn [omap list_omap].
  by destruct (match legacyFragmentOf e with Some _ => _ | None => _ end).
Qed.

Lemma legacy_loop_spec es :
  Forall (fun e => rawEntry e = true) es ->
  forall m, legacyNamed m -> NoDup (map fst m) ->
  exists m',
    Legacy.loop es m = Ok m' /\ legacyNamed m' /\
    map fst m' = foldl add_name (map fst m) (omap legacyName es) /\
    forall n, legacyLookup n m' =
              foldl (fun l f => Legacy.applyEntry (fst f) (snd f) l)
                (legacyLookup n m) (legacyFragmentsOf n es).
Proof.
  induction 1 as [|e es R _ IH]; intros m Hm ND.
  - by exists m.
  - cbn [Legacy.loop omap list_omap]. rewrite legacyName_fragment.
    destruct (legacyFragmentOf e) as [[[n0 t] c]|] eqn:F;
      cbn [fmap option_fmap option_map fst foldl].
    + rewrite (legacy_step_fragment _ _ _ _ _ F). cbn [mbind result_bind].
      set (X := Legacy.applyEntry t c
                  (default (Legacy.newLumia n0) (Legacy.map_get n0 m))).
      assert (HX : Legacy.lumiaDefName X = n0).
      { unfold X. rewrite legacy_applyEntry_name.
        destruct (Legacy.map_get n0 m) eqn:G; [by eapply legacy_named_get | done]. }
      assert (ND' : NoDup (map fst (Legacy.map_set n0 X m))).
      { rewrite legacy_set_keys. unfold add_name. case_bool_decide as Hin; [done|].
        apply NoDup_app. split; [done|]. split; [|apply NoDup_singleton].
        intros x Hx ->%list_elem_of_singleton. done. }
      destruct (IH (Legacy.map_set n0 X m) (legacy_named_set _ _ _ Hm HX) ND')
        as (m' & L & N & K & V).
      exists m'. split; [done|]. split; [done|]. split.
      * by rewrite K, legacy_set_keys.
      * intros n. rewrite V, legacyFragmentsOf_cons, foldl_app. f_equal.
        unfold legacyFragmentsOf. cbn [omap list_omap]. rewrite F.
        destruct (eqb n0 n) eqn:E; cbn [foldl fst snd].
        -- apply eqb_eq in E as <-. unfold legacyLookup at 1.
           by rewrite legacy_get_set_eq.
        -- apply eqb_neq in E. unfold legacyLookup.
           rewrite legacy_get_set_ne; [done | congruence].
    + rewrite (legacy_step_no_fragment _ _ R F). cbn [mbind result_bind].
      destruct (IH m Hm ND) as (m' & L & N & K & V).
      exists m'. split; [done|]. split; [done|]. split; [done|].
      intros n. rewrite V, legacyFragmentsOf_cons.
      unfold legacyFragmentsOf at 2. cbn [omap list_omap]. by rewrite F.
Qed.

Lemma legacy_values_by_key (m : list (jsstring * Legacy.Lumia)) :
  NoDup (map fst m) -> map snd m = map (fun k => legacyLookup k m) (map fst m).
Proof.
  induction m as [|[k l] m IH]; [done|]. cbn [map fst snd].
  intros [Hk ND]%NoDup_cons. f_equal.
  - unfold legacyLookup. cbn [Legacy.map_get]. by rewrite eqb_refl.
  - rewrite IH by done. rewrite !map_map. apply map_ext_in. intros [k' l'] Hin.
    cbn [fst]. unfold legacyLookup. cbn [Legacy.map_get].
    destruct (eqb k' k) eqn:E; [|done]. apply eqb_eq in E as ->.
    destruct Hk. apply list_elem_of_fmap. exists (k, l').
    split; [done | by apply list_elem_of_In].
Qed.

(** The map that the loop of the extension builds from no bindings. *)
Lemma legacy_loop_items entries :
  Forall (fun e => rawEntry e = true) entries ->
  exists m,
    Legacy.loop entries [] = Ok m /\
    map (fun kl => Legacy.lumia_value (snd kl)) m =
    map (fun n => Legacy.lumia_value (legacyBuild n (legacyFragmentsOf n entries)))
      (first_seen (omap legacyName entries)).
Proof.
  intros R.
  destruct (legacy_loop_spec entries R [] (Forall_nil_2 _) NoDup_nil_2)
    as (m & L & N & K & V).
  exists m. split; [done|].
  rewrite foldl_add_name in K. cbn [map app] in K. rewrite filter_fresh_nil in K.
  rewrite <- (map_map snd Legacy.lumia_value), legacy_values_by_key
    by (rewrite K; apply first_seen_NoDup).
  rewrite K, map_map. apply map_ext. intros n. by rewrite V.
Qed.

(** X14.  On raw entries processWorldBook of the extension returns one
    item per distinct name in parentheses, in first-seen order, each the
    result of applying the fragments of its name, in the order of the
    entries, to a fresh item. *)
Theorem legacy_items_by_name (data : value) (entries : list value) :
  Script.entriesOf data = Some entries ->
  Forall (fun e => rawEntry e = true) entries ->
  Legacy.processWorldBook data =
  Ok (map (fun n => Legacy.lumia_value (legacyBuild n (legacyFragmentsOf n entries)))
        (first_seen (omap legacyName entries))).
Proof.
  intros E R. destruct (legacy_loop_items entries R) as (m & L & M).
  unfold Legacy.processWorldBook. rewrite E, L. cbn [mbind result_bind].
  by rewrite M.
Qed.

End LegacyLoop.

Section ImportBook.
Import Str Props More Ui.

Lemma first_seen_elem x l : x ∈ l -> x ∈ first_seen l.
Proof.
  induction l as [|y l IH]; [by intros ?%elem_of_nil|].
  cbn [first_seen]. destruct (decide (x = y)) as [->|Hne]; [intros _; left|].
  intros [?|Hin]%elem_of_cons; [done|]. right.
  apply list_elem_of_In, filter_In. split; [by apply list_elem_of_In, IH|].
  apply negb_true_iff. by apply eqb_neq.
Qed.

Lemma legacy_foldl_name frs : forall l,
  Legacy.lumiaDefName
    (foldl (fun l f => Legacy.applyEntry (fst f) (snd f) l) l frs) =
  Legacy.lumiaDefName l.
Proof.
  induction frs as [|f frs IH]; intros l; [done|].
  cbn [foldl]. by rewrite IH, legacy_applyEntry_name.
Qed.

Lemma legacyBuild_name n frs : Legacy.lumiaDefName (legacyBuild n frs) = n.
Proof. unfold legacyBuild. by rewrite legacy_foldl_name. Qed.

Lemma find_item_by_name (f : jsstring -> Legacy.Lumia) n ks :
  (forall k, Legacy.lumiaDefName (f k) = k) -> n ∈ ks ->
  find_item n (map (fun k => Legacy.lumia_value (f k)) ks) = Ok (Legacy.lumia_value (f n)).
Proof.
  intros Hf. induction ks as [|k ks IH]; [by intros ?%elem_of_nil|].
  intros Hin. cbn [map find_item].
  change (Js.get (Legacy.lumia_value (f k)) "lumiaDefName")
    with (Ok (VStr (Legacy.lumiaDefName (f k)))).
  cbn [mbind result_bind Js.is_str]. rewrite Hf.
  destruct (eqb k n) eqn:E.
  - by apply eqb_eq in E as ->.
  - apply eqb_neq in E. apply elem_of_cons in Hin as [->|Hin]; [done|]. by apply IH.
Qed.

(** X15.  After a World Book has been imported (and an overwrite
    confirmed), every name that occurs in its entries can be looked up in
    the new pack and yields the item built from the fragments of that
    name; the other packs and the selections are as before. *)
Theorem import_then_lookup (s : Legacy.Settings) (data : value)
    (entries : list value) (sourceName : jsstring) (isURL : bool) (n : jsstring) :
  Script.entriesOf data = Some entries ->
  Forall (fun e => rawEntry e = true) entries ->
  n ∈ omap legacyName entries ->
  sourceName <> lit "__proto__" ->
  exists s',
    handleNewBook s data sourceName isURL true = Ok s' /\
    getItemFromLibrary s' sourceName n =
      Ok (Legacy.lumia_value (legacyBuild n (legacyFragmentsOf n entries))) /\
    (forall q, q <> sourceName -> Legacy.packs s' !! q = Legacy.packs s !! q) /\
    Legacy.selectedDefinition s' = Legacy.selectedDefinition s /\
    Legacy.selectedBehaviors s' = Legacy.selectedBehaviors s /\
    Legacy.selectedPersonalities s' = Legacy.selectedPersonalities s.
Proof.
  intros E R Hn _. unfold handleNewBook.
  destruct (legacy_loop_items entries R) as (m & L & M).
  unfold Legacy.processWorldBook. rewrite E, L. cbn [mbind result_bind].
  rewrite M. clear m L M.
  apply first_seen_elem in Hn.
  destruct (first_seen (omap legacyName entries)) as [|k ks] eqn:K;
    [by apply elem_of_nil in Hn|].
  rewrite <- K in *. clear K.
  rewrite length_map. destruct (length _ =? 0)%nat eqn:Z.
  { apply Nat.eqb_eq in Z. apply length_zero_iff_nil in Z. rewrite Z in Hn.
    by apply elem_of_nil in Hn. }
  rewrite andb_false_r. eexists. split; [done|].
  cbn [Legacy.packs Legacy.selectedDefinition Legacy.selectedBehaviors
       Legacy.selectedPersonalities].
  split; [|split; [by intros q Hq; apply lookup_insert_ne|done]].
  unfold getItemFromLibrary. cbn [Legacy.packs]. rewrite lookup_insert_eq.
  cbn [Js.truthy Js.get mbind result_bind Js.lookup].
  change (Js.lookup "items" _) with
    (VArr (map (fun n0 => Legacy.lumia_value (legacyBuild n0 (legacyFragmentsOf n0 entries)))
             (first_seen (omap legacyName entries)))).
  cbn [mbind result_bind].
  apply (find_item_by_name (fun k => legacyBuild k (legacyFragmentsOf k entries)));
    [intros; apply legacyBuild_name | done].
Qed.

Lemma import_then_lookup_witness :
  exists s',
    handleNewBook exampleSettings (VArr exampleEntries) "book.json" true true = Ok s' /\
    getItemFromLibrary s' "book.json" "Aria" =
      Ok (Legacy.lumia_value
            (legacyBuild "Aria" (legacyFragmentsOf "Aria" exampleEntries))).
Proof.
  destruct (import_then_lookup exampleSettings (VArr exampleEntries) exampleEntries
              "book.json" true "Aria") as (s' & H & G & _).
  - reflexivity.
  - repeat constructor.
  - by vm_compute; left.
  - discriminate.
  - exists s'. split; [exact H | exact G].
Defined.

End ImportBook.

Section ExtensionPacks.
Import Str Script More.

Lemma or_kept o : Js.or (Js.or (Js.of_option o) VUndef) VNull = Js.of_option (kept o).
Proof. by destruct o as [[|c s]|]. Qed.

Lemma convert_library_item l :
  hasLumiaName l = true ->
  sameFields (convertLumiaItem (Legacy.lumia_value l)) (lumia_value (canonical_of l)).
Proof.
  intros H k. unfold convertLumiaItem, prop.
  set (v := Legacy.lumia_value l).
  change (Js.get_opt v "lumiaDefName") with (VStr (Legacy.lumiaDefName l)).
  change (Js.get_opt v "lumiaName") with VUndef.
  change (Js.get_opt v "lumiaDef") with (Js.of_option (Legacy.lumiaDef l)).
  change (Js.get_opt v "lumiaDefinition") with VUndef.
  change (Js.get_opt v "lumia_personality") with (Js.of_option (Legacy.lumia_personality l)).
  change (Js.get_opt v "lumiaPersonality") with VUndef.
  change (Js.get_opt v "lumia_behavior") with (Js.of_option (Legacy.lumia_behavior l)).
  change (Js.get_opt v "lumiaBehavior") with VUndef.
  change (Js.get_opt v "lumia_img") with (Js.of_option (Legacy.lumia_img l)).
  change (Js.get_opt v "avatarUrl") with VUndef.
  change (Js.get_opt v "genderIdentity") with VUndef.
  change (Js.get_opt v "defAuthor") with (Js.of_option (Legacy.defAuthor l)).
  change (Js.get_opt v "authorName") with VUndef.
  rewrite !or_kept. cbn [nullish].
  assert (N : Js.or (VStr (Legacy.lumiaDefName l)) VUndef = VStr (Legacy.lumiaDefName l)).
  { unfold hasLumiaName in H. by destruct (Legacy.lumiaDefName l). }
  rewrite N. unfold lumia_value, canonical_of.
  cbn [lumiaName avatarUrl lumiaPersonality lumiaBehavior lumiaDefinition authorName
       genderIdentity version Js.get_opt Js.lookup].
  repeat (match goal with
          | |- context [eqb k ?x] =>
              let E := fresh "E" in
              destruct (eqb k x) eqn:E;
              [apply eqb_eq in E; subst k; reflexivity|]
          end).
  done.
Qed.

Lemma library_lumia_items ls :
  List.filter isLumiaItem (map Legacy.lumia_value ls) =
  map Legacy.lumia_value (List.filter hasLumiaName ls).
Proof.
  induction ls as [|l ls IH]; [done|]. cbn [map List.filter]. rewrite IH.
  assert (E : isLumiaItem (Legacy.lumia_value l) = hasLumiaName l).
  { unfold isLumiaItem, hasLumiaName.
    change (Js.get_opt (Legacy.lumia_value l) "lumiaDefName")
      with (VStr (Legacy.lumiaDefName l)).
    by destruct (Legacy.lumiaDefName l). }
  rewrite E. by destruct (hasLumiaName l).
Qed.

Lemma library_loom_items ls :
  List.filter isLoomItem (map Legacy.lumia_value ls) = [].
Proof.
  induction ls as [|l ls IH]; [done|]. cbn [map List.filter]. rewrite IH.
  unfold isLoomItem.
  change (Js.get_opt (Legacy.lumia_value l) "loomCategory") with VUndef.
  by rewrite andb_false_r.
Qed.

(** X16.  The converter accepts a pack as the extension stores it: the
    result is a pack under the stored name (the source name when that is
    empty), without author, cover and Loom items, whose Lumia items are,
    field for field, the stored items with a name, their empty texts
    turned into null. *)
Theorem extension_pack_converts (name url sourceName : jsstring)
    (library : list Legacy.Lumia) :
  exists lumiaItems,
    convertPack (extensionPack name library url) sourceName =
    Ok (VObj [ (lit "packName", VStr (if eqb name [] then sourceName else name));
               (lit "packAuthor", VNull);
               (lit "coverUrl", VNull);
               (lit "version", VNum 1);
               (lit "packExtras", VArr []);
               (lit "lumiaItems", VArr lumiaItems);
               (lit "loomItems", VArr []) ]) /\
    Forall2 (fun item l => sameFields item (lumia_value (canonical_of l)))
      lumiaItems (List.filter hasLumiaName library).
Proof.
  exists (map convertLumiaItem (map Legacy.lumia_value (List.filter hasLumiaName library))).
  split.
  - unfold convertPack.
    change (Js.get (extensionPack name library url) "lumiaItems") with (Ok VUndef).
    change (Js.get (extensionPack name library url) "loomItems") with (Ok VUndef).
    change (Js.get (extensionPack name library url) "entries") with (Ok VUndef).
    change (Js.get (extensionPack name library url) "items")
      with (Ok (VArr (map Legacy.lumia_value library))).
    cbn [mbind result_bind Js.or Js.truthy Js.isArray orb].
    rewrite convertItems_spec.
    + rewrite library_lumia_items, library_loom_items. unfold legacyPack, prop.
      cbn [map extensionPack Js.get_opt Js.lookup]. cbn. by destruct name.
    + apply Forall_forall. intros x Hx. apply list_elem_of_In, in_map_iff in Hx.
      by destruct Hx as (l & <- & _).
  - induction library as [|l ls IH]; [constructor|]. cbn [List.filter].
    destruct (hasLumiaName l) eqn:H; [|done]. cbn [map]. constructor; [|done].
    by apply convert_library_item.
Qed.

End ExtensionPacks.

Section TwoCopies.
Import Str Props More.

Lemma search_ext {R} (m1 m2 : jsstring -> option R) s :
  (forall p q, s = p ++ q -> m1 q = m2 q) -> search m1 s = search m2 s.
Proof.
  induction s as [|c s IH]; intros H; cbn [search].
  - by rewrite (H [] []).
  - rewrite (H [] (c :: s)) by done. rewrite IH; [done|].
    intros p q ->. by apply (H (c :: p)).
Qed.

Lemma starts_with_bracket c r : starts_with "]" (c :: r) = eqc c "]".
Proof.
  unfold starts_with. change (strip_prefix "]" (c :: r))
    with (if eqc "]" c then Some r else None).
  unfold eqc. destruct (decide (c = "]"%char)) as [->|N]; [done|].
  rewrite !bool_decide_eq_false_2; done.
Qed.

Lemma span_stop f s a c t : span f s = (a, c :: t) -> f c = false.
Proof.
  revert a. induction s as [|x s IH]; intros a; cbn [span]; [done|].
  destruct (f x) eqn:E.
  - destruct (span f s) as [a' b'] eqn:S. intros [= <- ->]. by eapply IH.
  - by intros [= <- <- <-].
Qed.

Lemma lazy_dots_span r :
  forallb (fun c => negb (is_lt c)) r = true ->
  lazy_dots (starts_with "]") r =
  match span (fun c => negb (eqc c "]")) r with
  | (v, _ :: _) => Some v
  | (_, []) => None
  end.
Proof.
  induction r as [|c r IH]; intros H; [done|].
  cbn [forallb] in H. apply andb_true_iff in H as [Hc H].
  apply negb_true_iff in Hc. cbn [lazy_dots span].
  rewrite starts_with_bracket. destruct (eqc c "]") eqn:E; cbn [negb]; [done|].
  rewrite Hc, (IH H). by destruct (span _ r) as [v [|c' t]].
Qed.

Lemma tag_at_agree o s :
  forallb (fun c => negb (is_lt c)) s = true ->
  strip_prefix (emptyTag o) s = None ->
  Legacy.tag_at o s = Script.tag_at o s.
Proof.
  intros H N. unfold Legacy.tag_at, Script.tag_at.
  destruct (strip_prefix o s) as [r|] eqn:P; [|done].
  apply strip_prefix_spec in P as ->.
  rewrite forallb_app in H. apply andb_true_iff in H as [_ H].
  destruct r as [|c r]; [done|].
  cbn [forallb] in H. apply andb_true_iff in H as [Hc H].
  apply negb_true_iff in Hc. cbn [lazy_dots1 span]. rewrite Hc.
  destruct (eqc c "]") eqn:E.
  { apply eqc_eq in E as ->. unfold emptyTag in N.
    replace (o ++ "]"%char :: r) with ((o ++ "]") ++ r) in N
      by (by rewrite <- app_assoc).
    by rewrite strip_prefix_app in N. }
  cbn [negb]. rewrite (lazy_dots_span r H).
  destruct (span _ r) as [v [|c' t]] eqn:S; [done|].
  apply span_stop in S. apply negb_false_iff in S. by rewrite S.
Qed.

Lemma plain_suffix p q :
  forallb (fun c => negb (is_lt c)) (p ++ q) = true ->
  forallb (fun c => negb (is_lt c)) q = true.
Proof. rewrite forallb_app. by intros [_ ?]%andb_true_iff. Qed.

Lemma not_included o s p q :
  includes o s = false -> s = p ++ q -> strip_prefix o q = None.
Proof.
  unfold includes. destruct (search (strip_prefix o) s) eqn:S; [done|].
  intros _. by apply search_None.
Qed.

Lemma matches_agree o content :
  forallb (fun c => negb (is_lt c)) content = true ->
  includes (emptyTag o) content = false ->
  search (Legacy.tag_at o) content = search (Script.tag_at o) content.
Proof.
  intros H N. apply search_ext. intros p q ->. apply tag_at_agree.
  - by eapply plain_suffix.
  - by eapply not_included.
Qed.

(** X17.  The two copies of extractMetadata, which differ in the pattern
    of a tag value, return the same image, author and cleaned text on
    every text without a line terminator and without a tag whose value is
    empty. *)
Theorem extractMetadata_copies_agree (content : jsstring) :
  plainTags content = true ->
  Legacy.image (Legacy.extractMetadata content) =
    Script.image (Script.extractMetadata content) /\
  Legacy.author (Legacy.extractMetadata content) =
    Script.author (Script.extractMetadata content) /\
  Legacy.content (Legacy.extractMetadata content) =
    Script.content (Script.extractMetadata content).
Proof.
  unfold plainTags. intros [[H I]%andb_true_iff A]%andb_true_iff.
  apply negb_true_iff in I, A.
  unfold Legacy.extractMetadata, Script.extractMetadata,
    Legacy.imgMatch, Legacy.authMatch, Script.imgMatch, Script.authMatch.
  unfold IMG in I. unfold AUTHOR in A.
  rewrite (matches_agree "[lumia_img=" content H I),
    (matches_agree "[lumia_author=" content H A).
  destruct (search (Script.tag_at "[lumia_img=") content) as [[p1 [w1 g1]]|];
    destruct (search (Script.tag_at "[lumia_author=") content) as [[p2 [w2 g2]]|];
    done.
Qed.

Lemma extractMetadata_copies_agree_witness :
  Legacy.image (Legacy.extractMetadata "Quiet. [lumia_img=http://x/a.png] [lumia_author=Bob]") =
  Script.image (Script.extractMetadata "Quiet. [lumia_img=http://x/a.png] [lumia_author=Bob]").
Proof.
  apply (extractMetadata_copies_agree
           "Quiet. [lumia_img=http://x/a.png] [lumia_author=Bob]").
  reflexivity.
Defined.

Lemma extractMetadata_copies_differ :
  Legacy.image (Legacy.extractMetadata "[lumia_img=]x] text") = Some (lit "]x") /\
  Script.image (Script.extractMetadata "[lumia_img=]x] text") = None.
Proof. by vm_compute. Qed.

End TwoCopies.

Section Merging.
Import Str Script Props More.










End Merging.

Section FurtherWitnesses.
Import Str Props More.

Lemma escapeHtml_safe_witness :
  "&"%char <> "<"%char /\ "&"%char <> ">"%char /\
  "&"%char <> "034"%char /\ "&"%char <> "'"%char.
Proof.
  apply (escapeHtml_safe "<b>" "&"). apply (bool_decide_unpack _). by vm_compute.
Defined.

Lemma escapeHtml_injective_witness : lit "a<b" = lit "a<b".
Proof. apply (escapeHtml_injective "a<b" "a<b"). reflexivity. Defined.

Lemma migrated_definition_resolves_witness :
  exists s' found,
    Legacy.migrateSettings exampleSettings = Ok (true, s') /\
    Legacy.selectedDefinition s' = Ui.ref Legacy.packName "Cy" /\
    Ui.getItemFromLibrary s' Legacy.packName "Cy" = Ok found /\
    Js.get_opt found "lumiaDefName" = VStr "Cy".
Proof.
  destruct (migrated_definition_resolves exampleSettings
              [legacyItem "Aria"; legacyItem "Bo"] [legacyItem "Di"; legacyItem "Ed"]
              (legacyItem "Cy") "Cy") as (s' & found & M & D & G & _ & N & _).
  - reflexivity.
  - reflexivity.
  - reflexivity.
  - repeat constructor.
  - reflexivity.
  - discriminate.
  - exists s', found. repeat split; assumption.
Defined.

Lemma removePack_cascade_witness :
  exists s',
    Ui.removePack examplePacks "Book" = Ok s' /\
    Legacy.packs s' !! lit "Book" = None /\
    Legacy.selectedBehaviors s' = VArr [Ui.ref "Gone" "Cy"] /\
    Legacy.selectedDefinition s' = VNull.
Proof.
  destruct (removePack_cascade examplePacks "Book"
              [Ui.ref "Book" "Bo"; Ui.ref "Gone" "Cy"] [])
    as (s' & R & P & _ & _ & B & _ & _ & N & _).
  - reflexivity.
  - reflexivity.
  - repeat constructor.
  - constructor.
  - exists s'. split; [exact R|]. split; [exact P|]. split; [exact B|].
    apply N. reflexivity.
Defined.

Lemma dangling_reference_ignored_witness :
  Ui.getLumiaContentMulti examplePacks "behavior"
    ([Ui.mkRef "Book" "Bo"] ++ Ui.mkRef "Gone" "Cy" :: []) =
  Ui.getLumiaContentMulti examplePacks "behavior" ([Ui.mkRef "Book" "Bo"] ++ []).
Proof.
  apply (dangling_reference_ignored examplePacks "behavior"
           [Ui.mkRef "Book" "Bo"] [] (Ui.mkRef "Gone" "Cy") VNull); reflexivity.
Defined.

Lemma legacy_items_by_name_witness :
  Legacy.processWorldBook (VArr exampleEntries) =
  Ok (map (fun n => Legacy.lumia_value (legacyBuild n (legacyFragmentsOf n exampleEntries)))
        (first_seen (omap legacyName exampleEntries))).
Proof.
  apply (legacy_items_by_name (VArr exampleEntries) exampleEntries).
  - reflexivity.
  - repeat constructor.
Defined.

End FurtherWitnesses.
